(** * tophu: multilooking of N-dimensional arrays

    A shallow embedding of [tophu/multilook.py] and [tophu/util.py].

    - Python values that reach [int(...)] are the type [pyobj]; exceptions are
      the type [exn]; a computation that may raise returns a [result].
    - [warnings.warn] appends to a log that is threaded through the
      computation (the monad [M]).
    - An array is its shape together with its elements in row-major (C) order,
      which is the order NumPy's and dask's [reshape] preserve.
    - Array extents, window sizes and indices are unbounded integers ([Z]);
      [util.ceil_divide] works on NumPy's 64-bit integers and has its
      wrap-around written out.
    - Element arithmetic is exact: the element type is any instance of
      [Dtype]; rationals stand for real floating-point values and pairs of
      rationals for complex ones. *)

From Stdlib Require Import ZArith List String Bool Lia DecimalString.
From Stdlib Require Import QArith Qcanon Qround FinFun Permutation.
Import ListNotations.

Local Open Scope string_scope.
Local Open Scope list_scope.
Local Open Scope Z_scope.

(** ** Python: exceptions, warnings, objects *)

Inductive exn : Type :=
| ValueError (msg : string)
| TypeError (msg : string)
| IndexError (msg : string)
| AxisError (msg : string).

Inductive result (T : Type) : Type :=
| Ok (v : T)
| Raise (e : exn).

Arguments Ok {T} v.
Arguments Raise {T} e.

Inductive warning : Type :=
| RuntimeWarning (msg : string).

(** The objects a caller may pass as [nlooks]. *)
#[warnings="-register-all"]
Inductive pyobj : Type :=
| PyInt (n : Z)
| PyFloat (q : Q)
| PyNone
| PySeq (items : list pyobj).

(** [int(o)]: an int is itself, a (finite) float is truncated towards zero,
    anything else is a [TypeError]. *)
Definition py_int (o : pyobj) : result Z :=
  match o with
  | PyInt n => Ok n
  | PyFloat q => Ok (Z.quot (Qnum q) (Z.pos (Qden q)))
  | PyNone =>
      Raise (TypeError "int() argument must be a string, a bytes-like object or a real number, not 'NoneType'")
  | PySeq _ =>
      Raise (TypeError "int() argument must be a string, a bytes-like object or a real number, not 'tuple'")
  end.

(** [iter(o)], as a [for] loop or a comprehension uses it. *)
Definition py_iter (o : pyobj) : result (list pyobj) :=
  match o with
  | PySeq items => Ok items
  | PyInt _ => Raise (TypeError "'int' object is not iterable")
  | PyFloat _ => Raise (TypeError "'float' object is not iterable")
  | PyNone => Raise (TypeError "'NoneType' object is not iterable")
  end.

(** [[int(n) for n in items]]: the first element that fails raises. *)
Fixpoint py_ints (items : list pyobj) : result (list Z) :=
  match items with
  | [] => Ok []
  | o :: rest =>
      match py_int o with
      | Raise e => Raise e
      | Ok n =>
          match py_ints rest with
          | Raise e => Raise e
          | Ok ns => Ok (n :: ns)
          end
      end
  end.

(** [str(z)] for an int, as an f-string renders it. *)
Definition py_str (z : Z) : string := NilZero.string_of_int (Z.to_int z).

(** [len(l)] *)
Definition len {T : Type} (l : list T) : Z := Z.of_nat (List.length l).

(** ** The effect monad: a result together with the warnings emitted so far

    [warnings.warn] is modelled as recording the warning. What the
    interpreter's warning filters then do with it (print, drop, raise) is the
    caller's configuration and is not modelled. *)

Definition M (T : Type) : Type := list warning -> result T * list warning.

Definition ret {T : Type} (v : T) : M T := fun w => (Ok v, w).

Definition bind {T U : Type} (c : M T) (k : T -> M U) : M U :=
  fun w =>
    match c w with
    | (Ok v, w') => k v w'
    | (Raise e, w') => (Raise e, w')
    end.

Definition lift {T : Type} (r : result T) : M T := fun w => (r, w).

Definition warn (x : warning) : M unit := fun w => (Ok tt, w ++ [x]).

Notation "x <- c ;; k" := (bind c (fun x => k))
  (at level 61, c at next level, right associativity).
Notation "c ;;; k" := (bind c (fun _ => k))
  (at level 61, right associativity).

(** ** tophu/util.py *)

Module Util.

(** NumPy's [int64]: the value of an integer after wrap-around. *)
Definition wrap64 (z : Z) : Z := (z + 2 ^ 63) mod 2 ^ 64 - 2 ^ 63.

Definition int64 (z : Z) : Prop := - 2 ^ 63 <= z < 2 ^ 63.

(** [ceil_divide(n, d)] on [int64] operands: [(n + d - np.sign(d)) // d],
    every operation wrapping to 64 bits. *)
Definition ceil_divide (n d : Z) : Z :=
  wrap64 (wrap64 (wrap64 (n + d) - Z.sgn d) / d).

(** The same formula on unbounded integers. *)
Definition ceil_divide_exact (n d : Z) : Z := (n + d - Z.sgn d) / d.

Definition iseven (n : Z) : bool := n mod 2 =? 0.

Definition interleave {T : Type} (s1 s2 : list T) : result (list T) :=
  if negb (len s1 =? len s2) then
    Raise (ValueError ("length mismatch: sequence lengths must be equal, got "
                       ++ py_str (len s1) ++ " and " ++ py_str (len s2))%string)
  else Ok (flat_map (fun pair => [fst pair; snd pair]) (combine s1 s2)).

End Util.

(** ** Arrays (the part of NumPy and dask that [multilook] calls) *)

(** What an element type must offer for [mean]: a zero, addition, and division
    by a count. *)
Class Dtype (A : Type) : Type := {
  zero : A;
  add : A -> A -> A;
  divn : A -> Z -> A
}.

(** Real-valued elements. *)
#[export] Instance Qc_Dtype : Dtype Qc := {
  zero := Q2Qc 0;
  add := Qcplus;
  divn := fun x n => Qcdiv x (Q2Qc (inject_Z n))
}.

(** Complex-valued elements: real and imaginary part. *)
#[export] Instance complex_Dtype : Dtype (Qc * Qc) := {
  zero := (Q2Qc 0, Q2Qc 0);
  add := fun x y => (Qcplus (fst x) (fst y), Qcplus (snd x) (snd y));
  divn := fun x n => (Qcdiv (fst x) (Q2Qc (inject_Z n)),
                      Qcdiv (snd x) (Q2Qc (inject_Z n)))
}.

Definition prod (s : list Z) : Z := fold_right Z.mul 1 s.

(** [range(m)] *)
Definition range (m : Z) : list Z := map Z.of_nat (seq 0 (Z.to_nat m)).

(** [zip] followed by an element-wise operation. *)
Definition map2 {T U V : Type} (f : T -> U -> V) (x : list T) (y : list U) : list V :=
  map (fun p => f (fst p) (snd p)) (combine x y).

(** All multi-indices of an array of shape [s], in row-major order. *)
Fixpoint indices (s : list Z) : list (list Z) :=
  match s with
  | [] => [[]]
  | m :: s' => flat_map (fun i => map (cons i) (indices s')) (range m)
  end.

(** The row-major offset of multi-index [idx] in an array of shape [s]. *)
Fixpoint ravel (s idx : list Z) : Z :=
  match s, idx with
  | _ :: s', i :: idx' => i * prod s' + ravel s' idx'
  | _, _ => 0
  end.

(** [idx] is a valid (non-negative) multi-index for shape [s]. *)
Fixpoint in_bounds (s idx : list Z) : bool :=
  match s, idx with
  | [], [] => true
  | m :: s', i :: idx' => (0 <=? i) && (i <? m) && in_bounds s' idx'
  | _, _ => false
  end.

(** [np.floor_divide], [*] and friends on two one-dimensional operands, with
    NumPy's broadcasting of a length-one operand. Integer division by zero
    yields zero in NumPy, as [Z.div] does. *)
Definition broadcast2 (f : Z -> Z -> Z) (x y : list Z) : result (list Z) :=
  if len x =? len y then Ok (map2 f x y)
  else match x, y with
       | [a], _ => Ok (map (f a) y)
       | _, [b] => Ok (map (fun a => f a b) x)
       | _, _ => Raise (ValueError "operands could not be broadcast together")
       end.

Definition floor_divide : list Z -> list Z -> result (list Z) := broadcast2 Z.div.
Definition multiply : list Z -> list Z -> result (list Z) := broadcast2 Z.mul.

(** [np.arange(start, stop, step)] for a positive step; [np.ogrid[a:b:c]]
    with one slice is this. *)
Definition arange (start stop step : Z) : list Z :=
  map (fun i => start + i * step) (range ((stop - start + step - 1) / step)).

(** The number of items [slice(stop)] selects on an axis of length [m]. *)
Definition slice_len (stop m : Z) : Z :=
  if stop <? 0 then Z.max 0 (m + stop) else Z.min stop m.

(** The shape that indexing with [slice(stop)] on the leading axes leaves. *)
Fixpoint sliced_shape (stops s : list Z) : list Z :=
  match stops, s with
  | stop :: stops', m :: s' => slice_len stop m :: sliced_shape stops' s'
  | _, _ => s
  end.

(** Keep the entries of [l] whose flag is set. *)
Fixpoint select {T : Type} (mask : list bool) (l : list T) : list T :=
  match mask, l with
  | b :: mask', x :: l' => if b then x :: select mask' l' else select mask' l'
  | _, _ => []
  end.

(** Rebuild a full multi-index from the index [J] over the kept axes and the
    index [K] over the reduced ones. *)
Fixpoint merge (mask : list bool) (J K : list Z) : list Z :=
  match mask with
  | [] => []
  | true :: mask' =>
      match K with
      | k :: K' => k :: merge mask' J K'
      | [] => []
      end
  | false :: mask' =>
      match J with
      | j :: J' => j :: merge mask' J' K
      | [] => []
      end
  end.

Fixpoint nodupb (l : list Z) : bool :=
  match l with
  | [] => true
  | x :: l' => negb (existsb (Z.eqb x) l') && nodupb l'
  end.

Section Arrays.

Context {A : Type} {DA : Dtype A}.

Record ndarray : Type := mk_ndarray {
  shape : list Z;
  data : list A
}.

Definition ndim (a : ndarray) : Z := len (shape a).

Definition size (a : ndarray) : Z := prod (shape a).

(** Every extent is non-negative and there is one element per multi-index. *)
Definition wf (a : ndarray) : Prop :=
  Forall (fun m => 0 <= m) (shape a) /\ len (data a) = prod (shape a).

(** The element at a multi-index. *)
Definition item (a : ndarray) (idx : list Z) : A :=
  nth (Z.to_nat (ravel (shape a) idx)) (data a) zero.

(** [a[slice(n_0), slice(n_1), ...]] *)
Definition getitem_slices (a : ndarray) (stops : list Z) : result ndarray :=
  if len (shape a) <? len stops then
    Raise (IndexError "too many indices for array")
  else
    let s := sliced_shape stops (shape a) in
    Ok {| shape := s; data := map (item a) (indices s) |}.

(** [a.reshape(new_shape)]: the elements keep their row-major order. A single
    [-1] stands for the extent that makes the sizes agree. *)
Definition reshape (a : ndarray) (new_shape : list Z) : result ndarray :=
  if existsb (fun m => m <? -1) new_shape then
    Raise (ValueError "negative dimensions not allowed")
  else
    let known := filter (fun m => negb (m =? -1)) new_shape in
    let unknown := len new_shape - len known in
    if 1 <? unknown then
      Raise (ValueError "can only specify one unknown dimension")
    else
      let s :=
        if unknown =? 1
        then map (fun m => if m =? -1 then size a / prod known else m) new_shape
        else new_shape in
      if prod s =? size a then Ok {| shape := s; data := data a |}
      else Raise (ValueError "total size of new array must be unchanged").

Definition sum (l : list A) : A := fold_right add zero l.

(** The arithmetic mean: the sum divided by the number of elements. *)
Definition mean_of (l : list A) : A := divn (sum l) (len l).

(** [mean(a, axis=axes)]: the axes in [axes] are reduced, the others kept in
    order. With an empty reduced axis NumPy yields NaN and warns; exact
    arithmetic has no NaN and [divn] decides that value here. *)
Definition mean (a : ndarray) (axes : list Z) : result ndarray :=
  let nd := ndim a in
  if negb (forallb (fun ax => (- nd <=? ax) && (ax <? nd)) axes) then
    Raise (AxisError "axis is out of bounds for array")
  else
    let axes' := map (fun ax => if ax <? 0 then ax + nd else ax) axes in
    if negb (nodupb axes') then
      Raise (ValueError "duplicate value in 'axis'")
    else
      let mask := map (fun p => existsb (Z.eqb p) axes') (range nd) in
      let kept := select (map negb mask) (shape a) in
      let reduced := select mask (shape a) in
      Ok {| shape := kept;
            data := map (fun J =>
                           mean_of (map (fun K => item a (merge mask J K))
                                        (indices reduced)))
                        (indices kept) |}.

(** ** tophu/multilook.py *)

Definition normalize_nlooks_tuple (nlooks : pyobj) (ndim : Z) : result (list Z) :=
  match py_int nlooks with
  | Ok n => Ok (repeat n (Z.to_nat ndim))
  | Raise (TypeError _) =>
      match py_iter nlooks with
      | Raise e => Raise e
      | Ok items =>
          match py_ints items with
          | Raise e => Raise e
          | Ok t =>
              if negb (len t =? ndim) then
                Raise (ValueError ("length mismatch: length of nlooks ("
                                   ++ py_str (len t)
                                   ++ ") must match input array rank ("
                                   ++ py_str ndim ++ ")")%string)
              else Ok t
          end
      end
  | Raise e => Raise e
  end.

Definition must_be_positive : string := "number of looks must be >= 1".
Definition exceeds_shape : string := "number of looks should not exceed array shape".

Definition even_warning : warning :=
  RuntimeWarning ("one or more components of nlooks is even-valued -- this will result in a"
                  ++ " phase delay in the multilooked data equivalent to a half-bin shift")%string.

Definition remainder_warning : warning :=
  RuntimeWarning ("input array shape is not an integer multiple of nlooks -- remainder"
                  ++ " samples will be excluded from output")%string.

(** The loop [for m, n in zip(arr.shape, nlooks)] of [validate_nlooks]. *)
Fixpoint check_looks (pairs : list (Z * Z)) : result unit :=
  match pairs with
  | [] => Ok tt
  | (m, n) :: rest =>
      if n <? 1 then Raise (ValueError must_be_positive)
      else if n >? m then Raise (ValueError exceeds_shape)
      else check_looks rest
  end.

Definition validate_nlooks (nlooks : list Z) (arr : ndarray) : M unit :=
  lift (check_looks (combine (shape arr) nlooks)) ;;;
  (if existsb Util.iseven nlooks then warn even_warning else ret tt) ;;;
  (if existsb (fun p => negb (fst p mod snd p =? 0)) (combine (shape arr) nlooks)
   then warn remainder_warning else ret tt).

Definition multilook (arr : ndarray) (nlooks : pyobj) : M ndarray :=
  nlooks <- lift (normalize_nlooks_tuple nlooks (ndim arr)) ;;
  validate_nlooks nlooks arr ;;;
  out_shape <- lift (floor_divide (shape arr) nlooks) ;;
  valid_shape <- lift (multiply out_shape nlooks) ;;
  cropped_arr <- lift (getitem_slices arr valid_shape) ;;
  tmp_shape <- lift (Util.interleave out_shape nlooks) ;;
  reshaped_arr <- lift (reshape cropped_arr tmp_shape) ;;
  let axes := arange 1 (ndim reshaped_arr) 2 in
  lift (mean reshaped_arr axes).

End Arrays.

Arguments ndarray A : clear implicits.

(** * Vocabulary of the statements *)

(** Alternating elements of two lists: the list [Util.interleave] returns. *)
Definition weave {T : Type} (s1 s2 : list T) : list T :=
  flat_map (fun pair => [fst pair; snd pair]) (combine s1 s2).

(** The flags of the odd positions among [2 * n]. *)
Fixpoint alt (n : nat) : list bool :=
  match n with
  | O => []
  | S n' => false :: true :: alt n'
  end.

(** A window-size tuple that passes both fatal checks on every axis of an
    array of shape [s] and has one entry per axis. *)
Definition valid_looks (s nlooks : list Z) : Prop :=
  Forall2 (fun m n => 1 <= n <= m) s nlooks.

(** Every zipped pair of extent and window size passes both fatal checks. *)
Definition passes_checks (s nlooks : list Z) : Prop :=
  Forall (fun p => 1 <= snd p <= fst p) (combine s nlooks).

(** The input index of element [K] of the block that output index [J]
    averages: [J * nlooks + K], axis by axis. *)
Definition block_index (nlooks J K : list Z) : list Z :=
  map2 Z.add (map2 Z.mul J nlooks) K.

(** The warnings [validate_nlooks] emits for [nlooks] on shape [s]. *)
Definition advisories (nlooks s : list Z) : list warning :=
  (if existsb Util.iseven nlooks then [even_warning] else [])
  ++ (if existsb (fun p => negb (fst p mod snd p =? 0)) (combine s nlooks)
      then [remainder_warning] else []).

Section Blocks.

Context {A : Type} {DA : Dtype A}.

(** The input elements of the block of output index [J], in row-major order
    of the block. *)
Definition block (arr : ndarray A) (nlooks J : list Z) : list A :=
  map (fun K => item arr (block_index nlooks J K)) (indices nlooks).

(** The array of block means. *)
Definition block_means (arr : ndarray A) (nlooks : list Z) : ndarray A :=
  let out_shape := map2 Z.div (shape arr) nlooks in
  {| shape := out_shape;
     data := map (fun J => mean_of (block arr nlooks J)) (indices out_shape) |}.

End Blocks.

(** A computation is framed when its result and the warnings it adds do not
    depend on the warnings emitted before it ran. *)
Definition framed {T : Type} (c : M T) : Prop :=
  forall w, c w = (fst (c []), w ++ snd (c [])).

(** Element arithmetic is exact when the mean of [n] copies of a value is
    that value. Rational and complex-rational arithmetic are; floating point
    is only up to rounding. *)
Class ExactMean (A : Type) {DA : Dtype A} : Prop :=
  mean_repeat : forall (v : A) (n : nat), (0 < n)%nat -> mean_of (repeat v n) = v.

Section Tiling.

Context {A : Type} {DA : Dtype A}.

(** [c] with every element repeated [k_i] times along axis [i], which the
    tests build with [da.repeat], one axis after the other. *)
Definition tile (c : ndarray A) (k : list Z) : ndarray A :=
  let s := map2 Z.mul (shape c) k in
  {| shape := s;
     data := map (fun idx => item c (map2 Z.div idx k)) (indices s) |}.

(** [zeros(s)] *)
Definition zeros (s : list Z) : ndarray A :=
  {| shape := s; data := repeat zero (Z.to_nat (prod s)) |}.

End Tiling.

(** ** Sample inputs *)

Definition real (z : Z) : Qc := Q2Qc (inject_Z z).

(** [arange(1, 6)] *)
Definition sample_1d : ndarray Qc :=
  {| shape := [5]; data := map real [1; 2; 3; 4; 5] |}.

(** [arange(12).reshape(3, 4)] *)
Definition sample_2d : ndarray Qc :=
  {| shape := [3; 4]; data := map real [0; 1; 2; 3; 4; 5; 6; 7; 8; 9; 10; 11] |}.

(** [arange(12).reshape(3, 4) + 1j * arange(12, 24).reshape(3, 4)] *)
Definition sample_complex : ndarray (Qc * Qc) :=
  {| shape := [3; 4];
     data := map (fun z => (real z, real (z + 12))) [0; 1; 2; 3; 4; 5; 6; 7; 8; 9; 10; 11] |}.

(** An array with no element: [zeros((0,))]. *)
Definition empty_1d : ndarray Qc := {| shape := [0]; data := [] |}.

(** ** Further vocabulary *)

(** A tuple of ints as a caller writes it. *)
Definition py_tuple (t : list Z) : pyobj := PySeq (map PyInt t).

Section Constant.

Context {A : Type} {DA : Dtype A}.

(** [full(s, v)] *)
Definition full (s : list Z) (v : A) : ndarray A :=
  {| shape := s; data := repeat v (Z.to_nat (prod s)) |}.

End Constant.

(** Element arithmetic in which sums may be reordered and division by a count
    distributes over sums and composes: rational and complex-rational
    arithmetic, and floating point up to rounding. *)
Class LinearMean (A : Type) {DA : Dtype A} : Prop := {
  add_comm : forall x y : A, add x y = add y x;
  add_assoc : forall x y z : A, add x (add y z) = add (add x y) z;
  add_zero : forall x : A, add zero x = x;
  divn_zero : forall n : Z, divn (zero : A) n = zero;
  divn_add : forall (x y : A) (n : Z), divn (add x y) n = add (divn x n) (divn y n);
  divn_divn : forall (x : A) (p q : Z),
      0 < p -> 0 < q -> divn (divn x p) q = divn x (p * q)
}.

(** The offsets [K' * a + K] inside a window of shape [a * b], enumerated
    sub-window by sub-window. *)
Definition nested_offsets (a b : list Z) : list (list Z) :=
  flat_map (fun K' => map (block_index a K') (indices a)) (indices b).

(** ** How the tests build their input *)

(** Apply [f] to the entry at position [i], if there is one. *)
Fixpoint update_nth {T : Type} (f : T -> T) (i : nat) (l : list T) : list T :=
  match l, i with
  | [], _ => []
  | x :: l', O => f x :: l'
  | x :: l', S i' => x :: update_nth f i' l'
  end.

Section Repeat.

Context {A : Type} {DA : Dtype A}.

(** [repeat(a, repeats, axis)] for a non-negative axis: every element is
    repeated [repeats] times along [axis]. *)
Definition repeat_axis (a : ndarray A) (repeats : Z) (axis : nat) : result (ndarray A) :=
  if (List.length (shape a) <=? axis)%nat then
    Raise (ValueError ("axis(=" ++ py_str (Z.of_nat axis) ++ ") out of bounds")%string)
  else if repeats <? 0 then
    Raise (ValueError "repeats may not contain negative values")
  else
    let s := update_nth (fun m => m * repeats) axis (shape a) in
    Ok {| shape := s;
          data := map (fun idx => item a (update_nth (fun i => i / repeats) axis idx))
                      (indices s) |}.

(** The loop of the tests, from axis [axis] on:
    [for axis, n in enumerate(nlooks): input = da.repeat(input, repeats=n, axis=axis)] *)
Fixpoint repeat_each (input : ndarray A) (axis : nat) (nlooks : list Z)
  : result (ndarray A) :=
  match nlooks with
  | [] => Ok input
  | n :: rest =>
      match repeat_axis input n axis with
      | Ok input' => repeat_each input' (S axis) rest
      | Raise e => Raise e
      end
  end.

(** [b] holds [c[idx // kk]] at every index [idx] of its shape
    [c.shape * kk], and has exactly these elements. *)
Definition repeats_of (c b : ndarray A) (kk : list Z) : Prop :=
  shape b = map2 Z.mul (shape c) kk
  /\ data b = map (fun idx => item c (map2 Z.div idx kk)) (indices (shape b)).

End Repeat.

(** * Properties *)

(** ** Lists, ranges and lengths *)

Lemma len_nonneg (T : Type) (l : list T) : 0 <= len l.
Proof. unfold len. lia. Qed.

Lemma len_eq_length (T U : Type) (l : list T) (l' : list U) :
  len l = len l' <-> List.length l = List.length l'.
Proof. unfold len. lia. Qed.

Lemma len_map (T U : Type) (f : T -> U) (l : list T) : len (map f l) = len l.
Proof. unfold len. now rewrite length_map. Qed.

Lemma len_repeat (T : Type) (x : T) (n : nat) : len (repeat x n) = Z.of_nat n.
Proof. unfold len. now rewrite repeat_length. Qed.

Lemma map2_cons (T U V : Type) (f : T -> U -> V) x xs y ys :
  map2 f (x :: xs) (y :: ys) = f x y :: map2 f xs ys.
Proof. reflexivity. Qed.

Lemma length_map2 (T U V : Type) (f : T -> U -> V) xs ys :
  List.length xs = List.length ys -> List.length (map2 f xs ys) = List.length xs.
Proof.
  intros E. unfold map2. rewrite length_map, length_combine. lia.
Qed.

Lemma in_range (m i : Z) : In i (range m) <-> 0 <= i < m.
Proof.
  unfold range. rewrite in_map_iff. split.
  - intros (k & <- & Hk). apply in_seq in Hk. lia.
  - intros Hi. exists (Z.to_nat i). split; [lia|]. apply in_seq. lia.
Qed.

(** The [r]-th element of the [i]-th block of a concatenation of blocks that
    all have [P] elements. *)
Lemma nth_flat_map_seq (T : Type) (f : Z -> list T) (P : nat) (d : T) :
  (forall j, List.length (f j) = P) ->
  forall n a i r, (i < n)%nat -> (r < P)%nat ->
    nth (i * P + r) (flat_map f (map Z.of_nat (seq a n))) d
    = nth r (f (Z.of_nat (a + i))) d.
Proof.
  intros HP. induction n as [|n IH]; intros a i r Hi Hr; [lia|].
  cbn [seq map flat_map]. destruct i as [|i].
  - rewrite app_nth1 by (rewrite HP; lia).
    now rewrite Nat.add_0_r.
  - rewrite app_nth2 by (rewrite HP; nia).
    rewrite HP. replace (S i * P + r - P)%nat with (i * P + r)%nat by nia.
    rewrite IH by lia. do 2 f_equal. lia.
Qed.

Lemma length_flat_map_uniform (T U : Type) (f : T -> list U) (P : nat) (l : list T) :
  (forall j, List.length (f j) = P) ->
  List.length (flat_map f l) = (List.length l * P)%nat.
Proof.
  intros HP. induction l as [|x l IH]; [reflexivity|].
  cbn [flat_map List.length]. rewrite length_app, HP, IH. lia.
Qed.

(** ** Multi-indices in row-major order *)

Lemma in_bounds_cons (m : Z) (s : list Z) (i : Z) (idx : list Z) :
  in_bounds (m :: s) (i :: idx) = true <-> 0 <= i < m /\ in_bounds s idx = true.
Proof.
  cbn [in_bounds]. rewrite !andb_true_iff, Z.leb_le, Z.ltb_lt. tauto.
Qed.

Lemma in_bounds_length (s idx : list Z) :
  in_bounds s idx = true -> List.length idx = List.length s.
Proof.
  revert idx. induction s as [|m s IH]; intros [|i idx] H; try discriminate.
  - reflexivity.
  - apply in_bounds_cons in H. cbn [List.length]. f_equal. now apply IH.
Qed.

Lemma in_bounds_positive (s idx : list Z) :
  in_bounds s idx = true -> Forall (fun m => 0 < m) s.
Proof.
  revert idx. induction s as [|m s IH]; intros [|i idx] H; try discriminate.
  - constructor.
  - apply in_bounds_cons in H. constructor; [lia|]. now apply (IH idx).
Qed.

Lemma prod_cons (m : Z) (s : list Z) : prod (m :: s) = m * prod s.
Proof. reflexivity. Qed.

Lemma prod_nonneg (s : list Z) : Forall (fun m => 0 <= m) s -> 0 <= prod s.
Proof.
  induction 1 as [|m s Hm _ IH]; [cbn; lia|]. rewrite prod_cons. nia.
Qed.

Lemma prod_positive (s : list Z) : Forall (fun m => 0 < m) s -> 0 < prod s.
Proof.
  induction 1 as [|m s Hm _ IH]; [cbn; lia|]. rewrite prod_cons. nia.
Qed.

Lemma Forall_positive_nonneg (s : list Z) :
  Forall (fun m => 0 < m) s -> Forall (fun m => 0 <= m) s.
Proof. apply Forall_impl. intros; lia. Qed.

Lemma in_indices (s idx : list Z) :
  In idx (indices s) <-> in_bounds s idx = true.
Proof.
  revert idx. induction s as [|m s IH]; intros idx.
  - cbn. destruct idx; intuition (congruence || discriminate).
  - cbn [indices]. rewrite in_flat_map. split.
    + intros (i & Hi & Hin). apply in_map_iff in Hin as (idx' & <- & Hin).
      apply in_bounds_cons. split; [now apply in_range | now apply IH].
    + destruct idx as [|i idx]; [discriminate|]. intros H.
      apply in_bounds_cons in H as [Hi H]. exists i. split; [now apply in_range|].
      apply in_map. now apply IH.
Qed.

Lemma length_indices (s : list Z) :
  Forall (fun m => 0 <= m) s -> List.length (indices s) = Z.to_nat (prod s).
Proof.
  induction 1 as [|m s Hm _ IH]; [reflexivity|].
  cbn [indices]. rewrite length_flat_map_uniform with (P := Z.to_nat (prod s)).
  - unfold range. rewrite length_map, length_seq, prod_cons. nia.
  - intros j. now rewrite length_map.
Qed.

Lemma len_indices (s : list Z) :
  Forall (fun m => 0 <= m) s -> len (indices s) = prod s.
Proof.
  intros H. unfold len. rewrite length_indices by assumption.
  pose proof (prod_nonneg s H). lia.
Qed.

Lemma ravel_bounds (s idx : list Z) :
  in_bounds s idx = true -> 0 <= ravel s idx < prod s.
Proof.
  revert idx. induction s as [|m s IH]; intros [|i idx] H; try discriminate.
  - cbn. lia.
  - apply in_bounds_cons in H as [Hi H]. specialize (IH idx H).
    cbn [ravel]. rewrite prod_cons. nia.
Qed.

(** The multi-index stored at row-major offset [ravel s idx] is [idx]. *)
Lemma nth_indices (s idx d : list Z) :
  in_bounds s idx = true -> nth (Z.to_nat (ravel s idx)) (indices s) d = idx.
Proof.
  revert idx. induction s as [|m s IH]; intros [|i idx] H; try discriminate.
  - reflexivity.
  - pose proof (in_bounds_positive _ _ H) as Hpos.
    apply in_bounds_cons in H as [Hi H].
    pose proof (ravel_bounds _ _ H) as Hr.
    assert (Hs : Forall (fun m => 0 <= m) s).
    { apply Forall_positive_nonneg. now inversion Hpos. }
    cbn [ravel indices]. unfold range.
    replace (Z.to_nat (i * prod s + ravel s idx))
      with (Z.to_nat i * Z.to_nat (prod s) + Z.to_nat (ravel s idx))%nat by nia.
    rewrite nth_flat_map_seq; try lia.
    + cbn [Nat.add]. rewrite Z2Nat.id by lia.
      rewrite nth_indep with (d' := i :: d).
      * rewrite map_nth. f_equal. now apply IH.
      * rewrite length_map, length_indices by assumption. lia.
    + intros j. rewrite length_map. now apply length_indices.
Qed.

Lemma nth_map_indices (T : Type) (f : list Z -> T) (s idx : list Z) (d : T) :
  in_bounds s idx = true ->
  nth (Z.to_nat (ravel s idx)) (map f (indices s)) d = f idx.
Proof.
  intros H. pose proof (ravel_bounds _ _ H) as Hr.
  pose proof (in_bounds_positive _ _ H) as Hpos.
  rewrite nth_indep with (d' := f []).
  - rewrite map_nth. f_equal. now apply nth_indices.
  - rewrite length_map, length_indices by now apply Forall_positive_nonneg. lia.
Qed.

(** ** Interleaving and the odd axes *)

Lemma weave_cons (T : Type) (x y : T) (s1 s2 : list T) :
  weave (x :: s1) (y :: s2) = x :: y :: weave s1 s2.
Proof. reflexivity. Qed.

Lemma interleave_ok (T : Type) (s1 s2 : list T) :
  List.length s1 = List.length s2 -> Util.interleave s1 s2 = Ok (weave s1 s2).
Proof.
  intros E. unfold Util.interleave.
  replace (len s1 =? len s2) with true; [reflexivity|].
  symmetry. apply Z.eqb_eq. now apply len_eq_length.
Qed.

Lemma length_weave (T : Type) (s1 s2 : list T) :
  List.length s1 = List.length s2 ->
  List.length (weave s1 s2) = (2 * List.length s1)%nat.
Proof.
  revert s2. induction s1 as [|x s1 IH]; intros [|y s2] E; try discriminate.
  - reflexivity.
  - rewrite weave_cons. cbn [List.length]. rewrite IH by (cbn in E; lia). lia.
Qed.

Lemma prod_weave (s1 s2 : list Z) : prod (weave s1 s2) = prod (map2 Z.mul s1 s2).
Proof.
  revert s2. induction s1 as [|x s1 IH]; intros [|y s2]; try reflexivity.
  rewrite weave_cons, map2_cons, !prod_cons, IH. ring.
Qed.

Lemma block_index_cons (n j k : Z) (nlooks J K : list Z) :
  block_index (n :: nlooks) (j :: J) (k :: K) = (j * n + k) :: block_index nlooks J K.
Proof. reflexivity. Qed.

(** Splitting every axis [o * n] into the pair [(o, n)] keeps row-major
    offsets: offset of [(j, k)] in the split array is the offset of
    [j * n + k] in the original. *)
Lemma ravel_weave (out nlooks J K : list Z) :
  List.length J = List.length out ->
  List.length K = List.length out ->
  List.length nlooks = List.length out ->
  ravel (weave out nlooks) (weave J K)
  = ravel (map2 Z.mul out nlooks) (block_index nlooks J K).
Proof.
  revert nlooks J K.
  induction out as [|o out IH]; intros [|n nlooks] [|j J] [|k K] HJ HK Hn;
    try discriminate; [reflexivity|].
  rewrite !weave_cons, block_index_cons, map2_cons. cbn [ravel].
  rewrite prod_cons, prod_weave, IH by (cbn in *; lia). ring.
Qed.

Lemma in_bounds_block (out nlooks J K : list Z) :
  List.length nlooks = List.length out ->
  in_bounds out J = true ->
  in_bounds nlooks K = true ->
  in_bounds (map2 Z.mul out nlooks) (block_index nlooks J K) = true.
Proof.
  revert nlooks J K.
  induction out as [|o out IH]; intros [|n nlooks] [|j J] [|k K] Hn HJ HK;
    try discriminate; [reflexivity|].
  apply in_bounds_cons in HJ as [Hj HJ]. apply in_bounds_cons in HK as [Hk HK].
  rewrite block_index_cons, map2_cons. apply in_bounds_cons. split; [nia|].
  apply IH; [cbn in Hn; lia|assumption..].
Qed.

Lemma arange_odd (n : Z) : 0 <= n -> arange 1 (2 * n) 2 = map (fun i => 1 + i * 2) (range n).
Proof.
  intros Hn. unfold arange. do 2 f_equal.
  replace (2 * n - 1 + 2 - 1) with (n * 2) by lia. now apply Z.div_mul.
Qed.

Lemma existsb_odd (n p : Z) :
  0 <= p < 2 * n ->
  existsb (Z.eqb p) (map (fun i => 1 + i * 2) (range n)) = Z.odd p.
Proof.
  intros Hp. apply eq_iff_eq_true. rewrite existsb_exists, Z.odd_spec. split.
  - intros (x & Hin & Hx). apply in_map_iff in Hin as (i & <- & _).
    apply Z.eqb_eq in Hx. exists i. lia.
  - intros (i & Hi). exists p. split; [|apply Z.eqb_refl].
    apply in_map_iff. exists i. split; [lia|]. apply in_range. lia.
Qed.

Lemma odd_seq_alt (n b : nat) :
  map (fun k => Z.odd (Z.of_nat k)) (seq (2 * b) (2 * n)) = alt n.
Proof.
  revert b. induction n as [|n IH]; intros b; [reflexivity|].
  replace (2 * S n)%nat with (S (S (2 * n))) by lia.
  cbn [seq map alt]. f_equal; [|f_equal].
  - rewrite Nat2Z.inj_mul, Z.odd_mul. reflexivity.
  - rewrite Nat2Z.inj_succ, Z.odd_succ, Nat2Z.inj_mul, Z.even_mul. reflexivity.
  - replace (S (S (2 * b))) with (2 * S b)%nat by lia. apply IH.
Qed.

(** The axes [1, 3, 5, ...] that [multilook] reduces are the odd positions. *)
Lemma mask_odd (n : nat) :
  map (fun p => existsb (Z.eqb p) (arange 1 (2 * Z.of_nat n) 2))
      (range (2 * Z.of_nat n))
  = alt n.
Proof.
  rewrite arange_odd by lia.
  rewrite map_ext_in with (g := Z.odd).
  - unfold range. rewrite map_map.
    replace (Z.to_nat (2 * Z.of_nat n)) with (2 * n)%nat by lia.
    apply (odd_seq_alt n 0).
  - intros p Hp. apply in_range in Hp. now apply existsb_odd.
Qed.

Lemma merge_alt (n : nat) (J K : list Z) :
  List.length J = n -> List.length K = n -> merge (alt n) J K = weave J K.
Proof.
  revert J K. induction n as [|n IH]; intros [|j J] [|k K] HJ HK; try discriminate.
  - reflexivity.
  - cbn [alt merge]. rewrite weave_cons. do 2 f_equal. apply IH; cbn in *; lia.
Qed.

Lemma select_alt (T : Type) (n : nat) (s1 s2 : list T) :
  List.length s1 = n -> List.length s2 = n ->
  select (alt n) (weave s1 s2) = s2 /\ select (map negb (alt n)) (weave s1 s2) = s1.
Proof.
  revert s1 s2. induction n as [|n IH]; intros [|x s1] [|y s2] H1 H2; try discriminate.
  - split; reflexivity.
  - destruct (IH s1 s2) as [E2 E1]; [cbn in *; lia..|].
    rewrite weave_cons. cbn [alt map negb select]. now rewrite E1, E2.
Qed.

Lemma nodupb_NoDup (l : list Z) : NoDup l -> nodupb l = true.
Proof.
  induction 1 as [|x l Hx _ IH]; [reflexivity|].
  cbn [nodupb]. rewrite IH, andb_true_r. apply negb_true_iff.
  apply not_true_iff_false. intros H. apply existsb_exists in H as (y & Hy & E).
  apply Z.eqb_eq in E. now subst.
Qed.

Lemma NoDup_range (m : Z) : NoDup (range m).
Proof.
  unfold range. apply Injective_map_NoDup; [|apply seq_NoDup].
  intros x y. apply Nat2Z.inj.
Qed.

Lemma nodupb_odd (n : Z) : nodupb (map (fun i => 1 + i * 2) (range n)) = true.
Proof.
  apply nodupb_NoDup. apply Injective_map_NoDup; [|apply NoDup_range].
  intros x y. lia.
Qed.

(** ** The array operations on the inputs [multilook] hands them *)

Lemma broadcast2_same_length (f : Z -> Z -> Z) (x y : list Z) :
  List.length x = List.length y -> broadcast2 f x y = Ok (map2 f x y).
Proof.
  intros E. unfold broadcast2.
  replace (len x =? len y) with true; [reflexivity|].
  symmetry. apply Z.eqb_eq. now apply len_eq_length.
Qed.

Lemma sliced_shape_prefix (stops s : list Z) :
  Forall2 (fun stop m => 0 <= stop <= m) stops s -> sliced_shape stops s = stops.
Proof.
  induction 1 as [|stop m stops s H _ IH]; [reflexivity|].
  cbn [sliced_shape]. rewrite IH. f_equal. unfold slice_len.
  destruct (stop <? 0) eqn:E; [apply Z.ltb_lt in E; lia | lia].
Qed.

Lemma valid_looks_length (s nlooks : list Z) :
  valid_looks s nlooks -> List.length nlooks = List.length s.
Proof. intros H. symmetry. exact (Forall2_length H). Qed.

Lemma valid_looks_crop (s nlooks : list Z) :
  valid_looks s nlooks ->
  Forall2 (fun stop m => 0 <= stop <= m) (map2 Z.mul (map2 Z.div s nlooks) nlooks) s.
Proof.
  induction 1 as [|m n s nlooks H _ IH]; [constructor|].
  rewrite !map2_cons. constructor; [|exact IH].
  pose proof (Z.mul_div_le m n ltac:(lia)).
  pose proof (Z.div_pos m n ltac:(lia) ltac:(lia)). nia.
Qed.

Lemma valid_looks_out_positive (s nlooks : list Z) :
  valid_looks s nlooks -> Forall (fun m => 0 < m) (map2 Z.div s nlooks).
Proof.
  induction 1 as [|m n s nlooks H _ IH]; [constructor|].
  rewrite map2_cons. constructor; [|exact IH].
  apply Z.div_str_pos. lia.
Qed.

Lemma valid_looks_positive (s nlooks : list Z) :
  valid_looks s nlooks -> Forall (fun n => 0 < n) nlooks.
Proof.
  induction 1 as [|m n s nlooks H _ IH]; constructor; [lia | exact IH].
Qed.

Lemma Forall_weave (P : Z -> Prop) (s1 s2 : list Z) :
  Forall P s1 -> Forall P s2 -> Forall P (weave s1 s2).
Proof.
  intros H1. revert s2. induction H1 as [|x s1 Hx _ IH]; intros s2 H2.
  - constructor.
  - destruct H2 as [|y s2 Hy H2]; [constructor|].
    rewrite weave_cons. repeat constructor; auto.
Qed.

Section ArrayLemmas.

Context {A : Type} {DA : Dtype A}.

Lemma getitem_slices_prefix (a : ndarray A) (stops : list Z) :
  Forall2 (fun stop m => 0 <= stop <= m) stops (shape a) ->
  getitem_slices a stops = Ok {| shape := stops; data := map (item a) (indices stops) |}.
Proof.
  intros H. unfold getitem_slices.
  replace (len (shape a) <? len stops) with false.
  - now rewrite sliced_shape_prefix.
  - symmetry. apply Z.ltb_ge. apply Forall2_length in H. unfold len. lia.
Qed.

Lemma reshape_explicit (a : ndarray A) (new_shape : list Z) :
  Forall (fun m => 0 <= m) new_shape ->
  prod new_shape = size a ->
  reshape a new_shape = Ok {| shape := new_shape; data := data a |}.
Proof.
  intros Hnn Hsize. unfold reshape.
  assert (E1 : existsb (fun m => m <? -1) new_shape = false).
  { apply not_true_iff_false. intros H. apply existsb_exists in H as (m & Hm & E).
    rewrite Forall_forall in Hnn. specialize (Hnn m Hm). apply Z.ltb_lt in E. lia. }
  assert (E2 : filter (fun m => negb (m =? -1)) new_shape = new_shape).
  { apply forallb_filter_id. apply forallb_forall. intros m Hm.
    rewrite Forall_forall in Hnn. specialize (Hnn m Hm).
    apply negb_true_iff, Z.eqb_neq. lia. }
  rewrite E1, E2, Z.sub_diag. cbn [Z.ltb Z.eqb Z.compare].
  rewrite Hsize, Z.eqb_refl. reflexivity.
Qed.

(** Reducing the odd axes of an array whose shape interleaves [out] and
    [nlooks]. *)
Lemma mean_odd_axes (a : ndarray A) (out nlooks : list Z) :
  List.length nlooks = List.length out ->
  shape a = weave out nlooks ->
  mean a (arange 1 (ndim a) 2)
  = Ok {| shape := out;
          data := map (fun J =>
                         mean_of (map (fun K => item a (weave J K)) (indices nlooks)))
                      (indices out) |}.
Proof.
  intros Hlen Hshape. unfold mean.
  assert (Hnd : ndim a = 2 * Z.of_nat (List.length out)).
  { unfold ndim, len. rewrite Hshape, length_weave by lia. lia. }
  rewrite Hnd, arange_odd by lia.
  set (n := List.length out) in *.
  set (odds := map (fun i => 1 + i * 2) (range (Z.of_nat n))).
  assert (Hodds : forall ax, In ax odds -> 0 <= ax < 2 * Z.of_nat n).
  { intros ax Hax. apply in_map_iff in Hax as (i & <- & Hi). apply in_range in Hi. lia. }
  assert (E1 : forallb (fun ax => (- (2 * Z.of_nat n) <=? ax) && (ax <? 2 * Z.of_nat n)) odds = true).
  { apply forallb_forall. intros ax Hax. specialize (Hodds ax Hax).
    apply andb_true_iff. split; [apply Z.leb_le | apply Z.ltb_lt]; lia. }
  assert (E2 : map (fun ax => if ax <? 0 then ax + 2 * Z.of_nat n else ax) odds = odds).
  { rewrite <- (map_id odds) at 2. apply map_ext_in. intros ax Hax.
    specialize (Hodds ax Hax). destruct (ax <? 0) eqn:E; [apply Z.ltb_lt in E; lia|reflexivity]. }
  rewrite E1, E2. cbn [negb]. unfold odds at 1. rewrite nodupb_odd. cbn [negb].
  unfold odds. rewrite <- arange_odd by lia. rewrite mask_odd, Hshape.
  destruct (select_alt _ n out nlooks eq_refl Hlen) as [-> ->].
  f_equal. f_equal. apply map_ext_in. intros J HJ. f_equal.
  apply map_ext_in. intros K HK. f_equal.
  apply in_indices, in_bounds_length in HJ, HK.
  apply merge_alt; lia.
Qed.

End ArrayLemmas.

(** ** Validation *)

Lemma valid_looks_passes (s nlooks : list Z) :
  valid_looks s nlooks -> passes_checks s nlooks.
Proof.
  induction 1 as [|m n s nlooks H _ IH]; constructor; [exact H | exact IH].
Qed.

Lemma check_looks_passes (pairs : list (Z * Z)) :
  Forall (fun p => 1 <= snd p <= fst p) pairs -> check_looks pairs = Ok tt.
Proof.
  induction 1 as [|[m n] pairs H _ IH]; [reflexivity|].
  cbn [check_looks]. cbn [fst snd] in H.
  destruct (n <? 1) eqn:E1; [apply Z.ltb_lt in E1; lia|].
  destruct (n >? m) eqn:E2; [apply Z.gtb_lt in E2; lia|].
  exact IH.
Qed.

(** A pair that fails a check, after pairs that all pass. *)
Lemma check_looks_first_failure (front back : list (Z * Z)) (m n : Z) :
  Forall (fun p => 1 <= snd p <= fst p) front ->
  check_looks (front ++ (m, n) :: back)
  = if n <? 1 then Raise (ValueError must_be_positive)
    else if n >? m then Raise (ValueError exceeds_shape)
    else check_looks back.
Proof.
  induction 1 as [|[m' n'] front H _ IH]; [reflexivity|].
  cbn [app check_looks]. cbn [fst snd] in H.
  destruct (n' <? 1) eqn:E1; [apply Z.ltb_lt in E1; lia|].
  destruct (n' >? m') eqn:E2; [apply Z.gtb_lt in E2; lia|].
  exact IH.
Qed.

Section MultilookLemmas.

Context {A : Type} {DA : Dtype A}.

Lemma validate_nlooks_passes (nlooks : list Z) (arr : ndarray A) (w : list warning) :
  passes_checks (shape arr) nlooks ->
  validate_nlooks nlooks arr w = (Ok tt, w ++ advisories nlooks (shape arr)).
Proof.
  intros H. unfold validate_nlooks, bind, lift, advisories.
  rewrite check_looks_passes by exact H.
  destruct (existsb Util.iseven nlooks);
    destruct (existsb _ (combine (shape arr) nlooks));
    unfold warn, ret; cbn [app]; rewrite <- ?app_assoc, ?app_nil_r; reflexivity.
Qed.

Lemma validate_nlooks_raises (nlooks : list Z) (arr : ndarray A) (w : list warning) (e : exn) :
  check_looks (combine (shape arr) nlooks) = Raise e ->
  validate_nlooks nlooks arr w = (Raise e, w).
Proof.
  intros H. unfold validate_nlooks, bind, lift. now rewrite H.
Qed.

Lemma multilook_raises (arr : ndarray A) (spec : pyobj) (nlooks : list Z)
      (w : list warning) (e : exn) :
  normalize_nlooks_tuple spec (ndim arr) = Ok nlooks ->
  check_looks (combine (shape arr) nlooks) = Raise e ->
  multilook arr spec w = (Raise e, w).
Proof.
  intros Hn Hc. unfold multilook, bind at 1, lift at 1. rewrite Hn.
  unfold bind at 1. now rewrite (validate_nlooks_raises _ _ _ _ Hc).
Qed.

(** The element the reshaped, cropped array holds at the split index
    [(j_1, k_1, ..., j_N, k_N)]. *)
Lemma item_split (arr : ndarray A) (out nlooks J K : list Z) :
  List.length nlooks = List.length out ->
  in_bounds out J = true ->
  in_bounds nlooks K = true ->
  item {| shape := weave out nlooks;
          data := map (item arr) (indices (map2 Z.mul out nlooks)) |}
       (weave J K)
  = item arr (block_index nlooks J K).
Proof.
  intros Hlen HJ HK. unfold item at 1. cbn [shape data].
  rewrite ravel_weave;
    [|now apply in_bounds_length|rewrite (in_bounds_length _ _ HK); lia|exact Hlen].
  apply nth_map_indices. now apply in_bounds_block.
Qed.

(** On a valid window-size tuple [multilook] returns the array of block
    means and emits exactly the advisory warnings. *)
Lemma multilook_valid (arr : ndarray A) (spec : pyobj) (nlooks : list Z)
      (w : list warning) :
  normalize_nlooks_tuple spec (ndim arr) = Ok nlooks ->
  valid_looks (shape arr) nlooks ->
  multilook arr spec w
  = (Ok (block_means arr nlooks), w ++ advisories nlooks (shape arr)).
Proof.
  intros Hn Hv. pose proof (valid_looks_length _ _ Hv) as Hlen.
  set (out := map2 Z.div (shape arr) nlooks).
  assert (Hout : List.length out = List.length (shape arr)).
  { unfold out. apply length_map2. lia. }
  unfold multilook, bind at 1, lift at 1. rewrite Hn.
  unfold bind at 1. rewrite validate_nlooks_passes by now apply valid_looks_passes.
  unfold bind at 1, lift at 1, floor_divide.
  rewrite broadcast2_same_length by lia. fold out.
  unfold bind at 1, lift at 1, multiply.
  rewrite broadcast2_same_length by lia.
  unfold bind at 1, lift at 1.
  rewrite getitem_slices_prefix by now apply valid_looks_crop.
  unfold bind at 1, lift at 1. rewrite interleave_ok by lia.
  unfold bind, lift. rewrite reshape_explicit.
  - rewrite mean_odd_axes with (out := out) (nlooks := nlooks); [|lia|reflexivity].
    unfold block_means. fold out. do 3 f_equal.
    apply map_ext_in. intros J HJ. f_equal. unfold block.
    apply map_ext_in. intros K HK.
    apply item_split; [lia | now apply in_indices..].
  - apply Forall_weave; apply Forall_positive_nonneg.
    + now apply valid_looks_out_positive.
    + now apply (valid_looks_positive (shape arr)).
  - unfold size. cbn [shape]. apply prod_weave.
Qed.

End MultilookLemmas.

(** ** Blocks *)

Lemma block_index_inj (nlooks J J' K K' : list Z) :
  List.length J = List.length nlooks ->
  List.length J' = List.length nlooks ->
  in_bounds nlooks K = true ->
  in_bounds nlooks K' = true ->
  block_index nlooks J K = block_index nlooks J' K' ->
  J = J' /\ K = K'.
Proof.
  revert J J' K K'.
  induction nlooks as [|n nlooks IH]; intros [|j J] [|j' J'] [|k K] [|k' K'];
    intros HJ HJ' HK HK' E; try discriminate; [split; reflexivity|].
  apply in_bounds_cons in HK as [Hk HK]. apply in_bounds_cons in HK' as [Hk' HK'].
  rewrite !block_index_cons in E. injection E as E0 E.
  destruct (IH J J' K K') as [-> ->]; try assumption; try (cbn in *; lia).
  assert (j = j').
  { destruct (Z.lt_trichotomy j j') as [H|[H|H]]; [exfalso|exact H|exfalso].
    - assert ((j + 1) * n <= j' * n) by (apply Z.mul_le_mono_nonneg_r; lia). lia.
    - assert ((j' + 1) * n <= j * n) by (apply Z.mul_le_mono_nonneg_r; lia). lia. }
  subst j'.
  assert (k = k') by lia. subst k'. split; reflexivity.
Qed.

Lemma block_index_range (nlooks J K : list Z) (i : nat) (n j : Z) :
  in_bounds nlooks K = true ->
  nth_error nlooks i = Some n ->
  nth_error J i = Some j ->
  exists x, nth_error (block_index nlooks J K) i = Some x /\ j * n <= x < (j + 1) * n.
Proof.
  revert J K i.
  induction nlooks as [|n' nlooks IH]; intros [|j' J] [|k K] [|i] HK Hn Hj;
    try discriminate.
  - apply in_bounds_cons in HK as [Hk _]. cbn in Hn, Hj.
    injection Hn as ->. injection Hj as ->.
    rewrite block_index_cons. cbn. eexists. split; [reflexivity|nia].
  - apply in_bounds_cons in HK as [_ HK]. cbn in Hn, Hj.
    rewrite block_index_cons. cbn [nth_error]. now apply IH.
Qed.

Lemma in_bounds_prefix (v s idx : list Z) :
  Forall2 (fun stop m => 0 <= stop <= m) v s ->
  in_bounds v idx = true -> in_bounds s idx = true.
Proof.
  intros H. revert idx.
  induction H as [|stop m v s H _ IH]; intros [|i idx] Hb;
    try discriminate; [reflexivity|].
  apply in_bounds_cons in Hb as [Hi Hb]. apply in_bounds_cons.
  split; [lia | now apply IH].
Qed.

Lemma nth_error_map2 (T U V : Type) (f : T -> U -> V) (xs : list T) (ys : list U)
      (i : nat) (x : T) (y : U) :
  nth_error xs i = Some x -> nth_error ys i = Some y ->
  nth_error (map2 f xs ys) i = Some (f x y).
Proof.
  revert ys i. induction xs as [|x' xs IH]; intros [|y' ys] [|i] Hx Hy;
    try discriminate.
  - cbn in *. congruence.
  - rewrite map2_cons. cbn in *. now apply IH.
Qed.

Section BlockLemmas.

Context {A : Type} {DA : Dtype A}.

Lemma length_block (arr : ndarray A) (nlooks J : list Z) :
  Forall (fun n => 0 < n) nlooks -> len (block arr nlooks J) = prod nlooks.
Proof.
  intros H. unfold block. rewrite len_map.
  apply len_indices. now apply Forall_positive_nonneg.
Qed.

(** The block means read the input only inside the cropped region. *)
Lemma block_means_agree (arr arr' : ndarray A) (nlooks : list Z) :
  valid_looks (shape arr) nlooks ->
  shape arr' = shape arr ->
  (forall idx,
     in_bounds (map2 Z.mul (map2 Z.div (shape arr) nlooks) nlooks) idx = true ->
     item arr' idx = item arr idx) ->
  block_means arr' nlooks = block_means arr nlooks.
Proof.
  intros Hv Hs Hagree. unfold block_means. rewrite Hs. f_equal.
  apply map_ext_in. intros J HJ. f_equal. unfold block.
  apply map_ext_in. intros K HK. apply Hagree.
  apply in_bounds_block; [|now apply in_indices..].
  rewrite length_map2; rewrite (valid_looks_length _ _ Hv); reflexivity.
Qed.

End BlockLemmas.

(** ** The claims about [multilook]'s result *)

Section Results.

Context {A : Type} {DA : Dtype A}.

(** C1. On a valid window-size tuple, [multilook arr nlooks] returns an array
    of shape [arr.shape // nlooks] with one element per multi-index, and its
    element at every multi-index [J] of that shape is the arithmetic mean of
    the input block
    [arr[J*nlooks : (J+1)*nlooks]], a box of [prod nlooks] elements that lies
    inside the input; blocks of different output elements do not overlap; and the elements beyond
    [out_shape * nlooks] contribute to nothing: changing them leaves the
    result unchanged. *)
Theorem multilook_block_mean (arr : ndarray A) (spec : pyobj) (nlooks : list Z)
        (w : list warning) :
  normalize_nlooks_tuple spec (ndim arr) = Ok nlooks ->
  valid_looks (shape arr) nlooks ->
  exists out,
    fst (multilook arr spec w) = Ok out
    /\ shape out = map2 Z.div (shape arr) nlooks
    /\ len (data out) = prod (shape out)
    /\ (forall J, in_bounds (map2 Z.div (shape arr) nlooks) J = true ->
          item out J = mean_of (block arr nlooks J)
          /\ len (block arr nlooks J) = prod nlooks
          /\ (forall K, in_bounds nlooks K = true ->
                in_bounds (shape arr) (block_index nlooks J K) = true
                /\ (forall i n j,
                      nth_error nlooks i = Some n -> nth_error J i = Some j ->
                      exists x, nth_error (block_index nlooks J K) i = Some x
                                /\ j * n <= x < (j + 1) * n)))
    /\ (forall J J' K K',
          in_bounds (shape out) J = true -> in_bounds (shape out) J' = true ->
          in_bounds nlooks K = true -> in_bounds nlooks K' = true ->
          block_index nlooks J K = block_index nlooks J' K' -> J = J' /\ K = K')
    /\ (forall arr' : ndarray A,
          shape arr' = shape arr ->
          (forall idx, in_bounds (map2 Z.mul (shape out) nlooks) idx = true ->
                       item arr' idx = item arr idx) ->
          fst (multilook arr' spec w) = Ok out).
Proof.
  intros Hn Hv. exists (block_means arr nlooks).
  pose proof (valid_looks_length _ _ Hv) as Hlen.
  assert (Hout : List.length (map2 Z.div (shape arr) nlooks) = List.length nlooks).
  { rewrite length_map2; lia. }
  split; [now rewrite (multilook_valid arr spec nlooks w Hn Hv)|].
  split; [reflexivity|].
  split.
  { cbn [block_means shape data]. rewrite len_map. apply len_indices.
    apply Forall_positive_nonneg. now apply valid_looks_out_positive. }
  split; [|split].
  - intros J HJ. split; [|split].
    + unfold item at 1. cbn [block_means shape data].
      now apply nth_map_indices.
    + apply length_block. now apply (valid_looks_positive (shape arr)).
    + intros K HK.
      pose proof (in_bounds_block _ _ _ _ (eq_sym Hout) HJ HK) as Hb.
      pose proof (valid_looks_crop _ _ Hv) as Hcrop.
      split; [exact (in_bounds_prefix _ _ _ Hcrop Hb)|].
      intros i n j. now apply block_index_range.
  - intros J J' K K' HJ HJ' HK HK'. cbn [block_means shape] in HJ, HJ'.
    apply block_index_inj; try assumption.
    + rewrite (in_bounds_length _ _ HJ). exact Hout.
    + rewrite (in_bounds_length _ _ HJ'). exact Hout.
  - intros arr' Hs Hagree. cbn [block_means shape] in Hagree.
    rewrite (multilook_valid arr' spec nlooks w).
    + cbn [fst]. f_equal. now apply block_means_agree.
    + unfold ndim. now rewrite Hs.
    + now rewrite Hs.
Qed.

(** C2. On a valid window-size tuple, the result has the rank of the input
    and extent [arr.shape[i] // nlooks[i]] along every axis [i]. *)
Theorem multilook_shape (arr : ndarray A) (spec : pyobj) (nlooks : list Z)
        (w : list warning) :
  normalize_nlooks_tuple spec (ndim arr) = Ok nlooks ->
  valid_looks (shape arr) nlooks ->
  exists out,
    fst (multilook arr spec w) = Ok out
    /\ ndim out = ndim arr
    /\ shape out = map2 Z.div (shape arr) nlooks
    /\ (forall i m n,
          nth_error (shape arr) i = Some m -> nth_error nlooks i = Some n ->
          nth_error (shape out) i = Some (m / n)).
Proof.
  intros Hn Hv. exists (block_means arr nlooks).
  pose proof (valid_looks_length _ _ Hv) as Hlen.
  split; [now rewrite (multilook_valid arr spec nlooks w Hn Hv)|].
  cbn [block_means shape]. split; [|split].
  - unfold ndim, len, block_means. cbn [shape]. rewrite length_map2; lia.
  - reflexivity.
  - intros i m n. apply nth_error_map2.
Qed.

End Results.

(** ** Normalization of the window-size specification *)


Lemma py_ints_repeat (o : pyobj) (n : Z) (k : nat) :
  py_int o = Ok n -> py_ints (repeat o k) = Ok (repeat n k).
Proof.
  intros Ho. induction k as [|k IH]; [reflexivity|].
  cbn [repeat py_ints]. now rewrite Ho, IH.
Qed.

Lemma normalize_scalar (o : pyobj) (n nd : Z) :
  py_int o = Ok n -> normalize_nlooks_tuple o nd = Ok (repeat n (Z.to_nat nd)).
Proof. intros Ho. unfold normalize_nlooks_tuple. now rewrite Ho. Qed.

Lemma normalize_sequence (items : list pyobj) (ns : list Z) (nd : Z) :
  py_ints items = Ok ns ->
  normalize_nlooks_tuple (PySeq items) nd
  = if negb (len ns =? nd)
    then Raise (ValueError ("length mismatch: length of nlooks (" ++ py_str (len ns)
                            ++ ") must match input array rank (" ++ py_str nd ++ ")")%string)
    else Ok ns.
Proof.
  intros Hi. unfold normalize_nlooks_tuple. cbn [py_int py_iter]. now rewrite Hi.
Qed.

(** Whatever [normalize_nlooks_tuple] returns has one entry per axis. *)
Lemma normalize_length (o : pyobj) (nd : Z) (nlooks : list Z) :
  0 <= nd -> normalize_nlooks_tuple o nd = Ok nlooks -> len nlooks = nd.
Proof.
  intros Hnd. unfold normalize_nlooks_tuple.
  destruct (py_int o) as [n|[]] eqn:Eo; try discriminate.
  - intros E. injection E as <-. rewrite len_repeat. lia.
  - destruct (py_iter o) as [items|]; [|discriminate].
    destruct (py_ints items) as [t|]; [|discriminate].
    destruct (len t =? nd) eqn:El; [|discriminate].
    cbn [negb]. intros E. injection E as <-. now apply Z.eqb_eq.
Qed.

Lemma passes_checks_valid (s nlooks : list Z) :
  List.length nlooks = List.length s ->
  passes_checks s nlooks -> valid_looks s nlooks.
Proof.
  revert nlooks. induction s as [|m s IH]; intros [|n nlooks] E H; try discriminate.
  - constructor.
  - inversion H as [|p ps Hp Hps]; subst. constructor; [exact Hp|].
    apply IH; [cbn in E; lia | exact Hps].
Qed.

Lemma normalize_valid {A : Type} (arr : ndarray A) (spec : pyobj) (nlooks : list Z) :
  normalize_nlooks_tuple spec (ndim arr) = Ok nlooks ->
  passes_checks (shape arr) nlooks ->
  valid_looks (shape arr) nlooks.
Proof.
  intros Hn Hp. apply passes_checks_valid; [|exact Hp].
  apply normalize_length in Hn; [|apply len_nonneg].
  now apply len_eq_length.
Qed.

Lemma warnings_distinct : even_warning <> remainder_warning.
Proof. discriminate. Qed.

Lemma in_even_advisories (nlooks s : list Z) :
  In even_warning (advisories nlooks s) <-> existsb Util.iseven nlooks = true.
Proof.
  pose proof warnings_distinct as D. unfold advisories.
  destruct (existsb Util.iseven nlooks); destruct (existsb _ (combine s nlooks));
    cbn [app In]; intuition (congruence || discriminate).
Qed.

Lemma in_remainder_advisories (nlooks s : list Z) :
  In remainder_warning (advisories nlooks s)
  <-> existsb (fun p => negb (fst p mod snd p =? 0)) (combine s nlooks) = true.
Proof.
  pose proof warnings_distinct as D. unfold advisories.
  destruct (existsb Util.iseven nlooks); destruct (existsb _ (combine s nlooks));
    cbn [app In]; intuition (congruence || discriminate).
Qed.

Lemma advisories_only (nlooks s : list Z) (x : warning) :
  In x (advisories nlooks s) -> x = even_warning \/ x = remainder_warning.
Proof.
  unfold advisories.
  destruct (existsb Util.iseven nlooks); destruct (existsb _ (combine s nlooks));
    cbn [app In]; intuition congruence.
Qed.

Lemma advisories_NoDup (nlooks s : list Z) : NoDup (advisories nlooks s).
Proof.
  pose proof warnings_distinct as D. unfold advisories.
  destruct (existsb Util.iseven nlooks); destruct (existsb _ (combine s nlooks));
    cbn [app]; repeat constructor; cbn [In]; intuition congruence.
Qed.

(** ** The claims about errors and warnings *)

Section Diagnostics.

Context {A : Type} {DA : Dtype A}.

(** C3. Let axis [i] be the first whose pair [(m, n)] of extent and window
    size fails a check. Then [validate_nlooks] raises the [ValueError]
    "number of looks must be >= 1" when [n < 1], and otherwise (so [n > m])
    the [ValueError] "number of looks should not exceed array shape"; so does
    [multilook] for every specification that normalizes to [nlooks]; no
    warning is emitted and no result is produced. *)
Theorem validate_nlooks_first_offender (arr : ndarray A) (nlooks : list Z)
        (w : list warning) (i : nat) (m n : Z) :
  nth_error (combine (shape arr) nlooks) i = Some (m, n) ->
  (forall j m' n', (j < i)%nat ->
     nth_error (combine (shape arr) nlooks) j = Some (m', n') -> 1 <= n' <= m') ->
  n < 1 \/ n > m ->
  let e := if n <? 1
           then ValueError "number of looks must be >= 1"
           else ValueError "number of looks should not exceed array shape" in
  validate_nlooks nlooks arr w = (Raise e, w)
  /\ (forall spec, normalize_nlooks_tuple spec (ndim arr) = Ok nlooks ->
        multilook arr spec w = (Raise e, w)).
Proof.
  intros Hi Hbefore Hbad e.
  assert (Hc : check_looks (combine (shape arr) nlooks) = Raise e).
  { apply nth_error_split in Hi as (front & back & Hsplit & Hlen).
    rewrite Hsplit, check_looks_first_failure.
    - subst e. unfold must_be_positive, exceeds_shape.
      destruct (n <? 1) eqn:E1; [reflexivity|].
      destruct (n >? m) eqn:E2; [reflexivity|].
      apply Z.ltb_ge in E1. rewrite Z.gtb_ltb in E2. apply Z.ltb_ge in E2. lia.
    - apply Forall_forall. intros [m' n'] Hin.
      apply In_nth_error in Hin as (j & Hj).
      assert (Hlt : (j < i)%nat).
      { rewrite <- Hlen. apply nth_error_Some. congruence. }
      apply (Hbefore j m' n' Hlt). rewrite Hsplit.
      rewrite nth_error_app1 by (rewrite Hlen; exact Hlt). exact Hj. }
  split.
  - now apply validate_nlooks_raises.
  - intros spec Hn. now apply multilook_raises with (nlooks := nlooks).
Qed.

(** C5. When every axis passes the fatal checks, [validate_nlooks] returns
    normally; among the warnings it emits, the even-window warning is
    present exactly when some component of [nlooks] is even and the remainder
    warning exactly when some axis has [m % n != 0]; it emits nothing else,
    each at most once, and nothing at all when every window size is odd and
    every extent is a multiple of its window size. [multilook] emits the same
    warnings and still returns an array. *)
Theorem validate_nlooks_warnings (arr : ndarray A) (nlooks : list Z) (w : list warning) :
  passes_checks (shape arr) nlooks ->
  exists ws,
    validate_nlooks nlooks arr w = (Ok tt, w ++ ws)
    /\ (In even_warning ws <-> exists n, In n nlooks /\ n mod 2 = 0)
    /\ (In remainder_warning ws <->
        exists m n, In (m, n) (combine (shape arr) nlooks) /\ m mod n <> 0)
    /\ (forall x, In x ws -> x = even_warning \/ x = remainder_warning)
    /\ NoDup ws
    /\ ((forall n, In n nlooks -> n mod 2 = 1) ->
        (forall m n, In (m, n) (combine (shape arr) nlooks) -> m mod n = 0) ->
        ws = [])
    /\ (forall spec, normalize_nlooks_tuple spec (ndim arr) = Ok nlooks ->
          exists out, multilook arr spec w = (Ok out, w ++ ws)).
Proof.
  intros Hp. exists (advisories nlooks (shape arr)).
  split; [now apply validate_nlooks_passes|].
  assert (Heven : existsb Util.iseven nlooks = true <-> exists n, In n nlooks /\ n mod 2 = 0).
  { rewrite existsb_exists. unfold Util.iseven.
    split; intros (n & Hin & E); exists n; (split; [exact Hin|]);
      now apply Z.eqb_eq. }
  assert (Hrem : existsb (fun p => negb (fst p mod snd p =? 0)) (combine (shape arr) nlooks) = true
                 <-> exists m n, In (m, n) (combine (shape arr) nlooks) /\ m mod n <> 0).
  { rewrite existsb_exists. split.
    - intros ([m n] & Hin & E). exists m, n. split; [exact Hin|].
      cbn [fst snd] in E. now apply negb_true_iff, Z.eqb_neq in E.
    - intros (m & n & Hin & E). exists (m, n). split; [exact Hin|].
      cbn [fst snd]. now apply negb_true_iff, Z.eqb_neq. }
  split; [now rewrite in_even_advisories|].
  split; [now rewrite in_remainder_advisories|].
  split; [apply advisories_only|].
  split; [apply advisories_NoDup|].
  split.
  - intros Hodd Hmult. unfold advisories.
    destruct (existsb Util.iseven nlooks) eqn:Ee.
    { destruct (proj1 Heven eq_refl) as (n & Hin & E). specialize (Hodd n Hin). lia. }
    destruct (existsb _ (combine (shape arr) nlooks)) eqn:Er; [|reflexivity].
    destruct (proj1 Hrem eq_refl) as (m & n & Hin & E). now specialize (Hmult m n Hin).
  - intros spec Hn. eexists. apply (multilook_valid arr spec nlooks w Hn).
    now apply (normalize_valid arr spec).
Qed.

End Diagnostics.

(** ** Warnings are only ever appended *)

Lemma framed_ret (T : Type) (v : T) : framed (ret v).
Proof. intros w. unfold ret. cbn. now rewrite app_nil_r. Qed.

Lemma framed_lift (T : Type) (r : result T) : framed (lift r).
Proof. intros w. unfold lift. cbn. now rewrite app_nil_r. Qed.

Lemma framed_warn (x : warning) : framed (warn x).
Proof. intros w. reflexivity. Qed.

Lemma framed_bind (T U : Type) (c : M T) (k : T -> M U) :
  framed c -> (forall v, framed (k v)) -> framed (bind c k).
Proof.
  intros Hc Hk w. unfold bind. rewrite (Hc w).
  destruct (c []) as [[v|e] w0]; cbn [fst snd].
  - rewrite (Hk v (w ++ w0)), (Hk v w0). cbn [fst snd]. now rewrite app_assoc.
  - reflexivity.
Qed.

Create HintDb framed.

#[local] Hint Resolve framed_ret framed_lift framed_warn framed_bind : framed.

Section Calls.

Context {A : Type} {DA : Dtype A}.

Lemma framed_validate_nlooks (nlooks : list Z) (arr : ndarray A) :
  framed (validate_nlooks nlooks arr).
Proof.
  unfold validate_nlooks.
  repeat (apply framed_bind; [|intros ?]); auto with framed.
  - destruct (existsb _ _); auto with framed.
  - destruct (existsb _ _); auto with framed.
Qed.

Lemma framed_multilook (arr : ndarray A) (spec : pyobj) : framed (multilook arr spec).
Proof.
  unfold multilook.
  apply framed_bind; [auto with framed|intros nl].
  apply framed_bind; [apply framed_validate_nlooks|intros _].
  repeat (apply framed_bind; [|intros ?]); cbv zeta; auto with framed.
Qed.

(** C6. A scalar window size [n] (anything [int()] accepts) is normalized to
    [n] repeated [ndim] times, and [multilook arr n] is [multilook arr
    ((n,) * arr.ndim)]: same result or error, same warnings. *)
Theorem multilook_scalar_broadcast (arr : ndarray A) (o : pyobj) (n : Z)
        (w : list warning) :
  py_int o = Ok n ->
  (forall nd, normalize_nlooks_tuple o nd = Ok (repeat n (Z.to_nat nd)))
  /\ multilook arr o w = multilook arr (PySeq (repeat o (Z.to_nat (ndim arr)))) w.
Proof.
  intros Ho. split; [intros nd; now apply normalize_scalar|].
  unfold multilook, bind at 1 3, lift at 1 8.
  rewrite (normalize_scalar o n _ Ho).
  rewrite (normalize_sequence _ _ _ (py_ints_repeat o n _ Ho)).
  rewrite len_repeat.
  replace (Z.of_nat (Z.to_nat (ndim arr)) =? ndim arr) with true; [reflexivity|].
  symmetry. apply Z.eqb_eq. pose proof (len_nonneg _ (shape arr)). unfold ndim. lia.
Qed.


(** C8. Once normalization has returned [nlooks], the operands of
    [util.interleave] have equal lengths, so its [ValueError] cannot be
    reached; and when [nlooks] is moreover valid for the array, every later
    step of [multilook] (shape arithmetic, crop, reshape, mean over the odd
    axes) returns normally, every block is non-empty, and [multilook] returns
    an array. *)
Theorem multilook_total (arr : ndarray A) (spec : pyobj) (nlooks : list Z)
        (w : list warning) :
  normalize_nlooks_tuple spec (ndim arr) = Ok nlooks ->
  (forall out_shape, floor_divide (shape arr) nlooks = Ok out_shape ->
     len out_shape = len nlooks
     /\ Util.interleave out_shape nlooks = Ok (weave out_shape nlooks))
  /\ (valid_looks (shape arr) nlooks ->
      exists out_shape valid_shape cropped_arr tmp_shape reshaped_arr out,
        floor_divide (shape arr) nlooks = Ok out_shape
        /\ multiply out_shape nlooks = Ok valid_shape
        /\ getitem_slices arr valid_shape = Ok cropped_arr
        /\ Util.interleave out_shape nlooks = Ok tmp_shape
        /\ reshape cropped_arr tmp_shape = Ok reshaped_arr
        /\ mean reshaped_arr (arange 1 (ndim reshaped_arr) 2) = Ok out
        /\ 0 < prod nlooks
        /\ multilook arr spec w = (Ok out, w ++ advisories nlooks (shape arr))).
Proof.
  intros Hn.
  assert (Hlen : List.length nlooks = List.length (shape arr)).
  { apply len_eq_length. apply normalize_length in Hn; [exact Hn | apply len_nonneg]. }
  split.
  - intros out_shape Hfd. unfold floor_divide in Hfd.
    rewrite broadcast2_same_length in Hfd by lia. injection Hfd as <-.
    assert (E : List.length (map2 Z.div (shape arr) nlooks) = List.length nlooks).
    { rewrite length_map2; lia. }
    split; [now apply len_eq_length | now apply interleave_ok].
  - intros Hv. set (out := map2 Z.div (shape arr) nlooks).
    assert (Hout : List.length out = List.length nlooks).
    { unfold out. rewrite length_map2; lia. }
    exists out, (map2 Z.mul out nlooks).
    exists {| shape := map2 Z.mul out nlooks;
              data := map (item arr) (indices (map2 Z.mul out nlooks)) |}.
    exists (weave out nlooks).
    exists {| shape := weave out nlooks;
              data := map (item arr) (indices (map2 Z.mul out nlooks)) |}.
    exists (block_means arr nlooks).
    split; [unfold floor_divide; apply broadcast2_same_length; lia|].
    split; [unfold multiply; apply broadcast2_same_length; lia|].
    split; [apply getitem_slices_prefix; now apply valid_looks_crop|].
    split; [now apply interleave_ok|].
    split.
    { apply reshape_explicit.
      - apply Forall_weave; apply Forall_positive_nonneg.
        + now apply valid_looks_out_positive.
        + now apply (valid_looks_positive (shape arr)).
      - unfold size. cbn [shape]. apply prod_weave. }
    split.
    { rewrite mean_odd_axes with (out := out) (nlooks := nlooks); [|lia|reflexivity].
      unfold block_means. fold out. do 2 f_equal.
      apply map_ext_in. intros J HJ. f_equal. unfold block.
      apply map_ext_in. intros K HK.
      apply item_split; [lia | now apply in_indices..]. }
    split; [apply prod_positive; now apply (valid_looks_positive (shape arr))|].
    now apply multilook_valid.
Qed.

End Calls.

(** ** Exact element arithmetic *)

Lemma real_succ (z : Z) : real (z + 1) = (real z + 1)%Qc.
Proof.
  unfold real. apply Qc_is_canon. unfold Qcplus. cbn [this Q2Qc].
  rewrite !Qred_correct, inject_Z_plus. reflexivity.
Qed.

Lemma real_nonzero (z : Z) : z <> 0 -> real z <> Q2Qc 0.
Proof.
  intros Hz E. unfold real in E. apply Q2Qc_eq_iff in E.
  apply Hz. unfold Qeq in E. cbn in E. lia.
Qed.

Lemma sum_repeat_real (v : Qc) (n : nat) :
  sum (repeat v n) = (real (Z.of_nat n) * v)%Qc.
Proof.
  induction n as [|n IH].
  - change (0 = 0 * v)%Qc. ring.
  - cbn [repeat]. unfold sum in *. cbn [fold_right]. rewrite IH.
    rewrite Nat2Z.inj_succ, <- Z.add_1_r, real_succ. cbn [add Qc_Dtype]. ring.
Qed.

#[export] Instance Qc_ExactMean : ExactMean Qc.
Proof.
  intros v n Hn. unfold mean_of. rewrite sum_repeat_real, len_repeat.
  cbn [divn Qc_Dtype]. fold (real (Z.of_nat n)).
  field. apply real_nonzero. lia.
Qed.

Lemma sum_repeat_complex (v : Qc * Qc) (n : nat) :
  sum (repeat v n) = ((real (Z.of_nat n) * fst v)%Qc, (real (Z.of_nat n) * snd v)%Qc).
Proof.
  induction n as [|n IH].
  - change ((0, 0) = (0 * fst v, 0 * snd v))%Qc. f_equal; ring.
  - cbn [repeat]. unfold sum in *. cbn [fold_right]. rewrite IH.
    rewrite Nat2Z.inj_succ, <- Z.add_1_r, real_succ.
    cbn [add complex_Dtype fst snd]. f_equal; ring.
Qed.

#[export] Instance complex_ExactMean : ExactMean (Qc * Qc).
Proof.
  intros [re im] n Hn. unfold mean_of. rewrite sum_repeat_complex, len_repeat.
  cbn [divn complex_Dtype fst snd]. fold (real (Z.of_nat n)).
  f_equal; field; apply real_nonzero; lia.
Qed.

(** ** Row-major offsets enumerate the elements *)

Lemma ravel_nth_indices (s : list Z) :
  Forall (fun m => 0 <= m) s ->
  forall (p : nat) (d : list Z),
    (p < List.length (indices s))%nat ->
    ravel s (nth p (indices s) d) = Z.of_nat p.
Proof.
  induction 1 as [|m s Hm Hs IH]; intros p d Hp.
  - cbn in Hp. replace p with 0%nat by lia. reflexivity.
  - pose proof (length_indices s Hs) as HP.
    pose proof (prod_nonneg s Hs) as Hnn.
    rewrite (length_indices (m :: s)) in Hp by now constructor.
    rewrite prod_cons in Hp.
    assert (Hps : 0 < prod s).
    { destruct (Z.eq_dec (prod s) 0) as [E|E]; [|lia].
      rewrite E, Z.mul_0_r in Hp. cbn in Hp. lia. }
    rewrite Z2Nat.inj_mul in Hp by lia.
    set (P := Z.to_nat (prod s)) in *.
    assert (HPpos : (0 < P)%nat) by (unfold P; lia).
    assert (Hdiv : (p / P < Z.to_nat m)%nat).
    { apply Nat.Div0.div_lt_upper_bound. lia. }
    assert (Hmod : (p mod P < P)%nat) by (apply Nat.mod_upper_bound; lia).
    cbn [indices]. unfold range.
    rewrite (Nat.div_mod_eq p P) at 1.
    replace (P * (p / P) + p mod P)%nat with (p / P * P + p mod P)%nat by lia.
    rewrite nth_flat_map_seq; try assumption.
    + cbn [Nat.add]. rewrite nth_indep with (d' := Z.of_nat (p / P) :: d)
        by (rewrite length_map; lia).
      rewrite map_nth. cbn [ravel]. rewrite IH by lia.
      pose proof (Nat.div_mod_eq p P). nia.
    + intros j. now rewrite length_map.
Qed.

Section WellFormed.

Context {A : Type} {DA : Dtype A}.

(** Reading a well-formed array at all its multi-indices, in order, gives
    its elements. *)
Lemma map_item_indices (a : ndarray A) :
  wf a -> map (item a) (indices (shape a)) = data a.
Proof.
  intros [Hs Hd].
  assert (Hlen : List.length (indices (shape a)) = List.length (data a)).
  { rewrite length_indices by assumption. unfold len in Hd.
    pose proof (prod_nonneg _ Hs). lia. }
  apply nth_ext with (d := zero) (d' := zero).
  - now rewrite length_map.
  - intros p Hp. rewrite length_map in Hp.
    rewrite nth_indep with (d' := item a []) by now rewrite length_map.
    rewrite map_nth. unfold item at 1.
    rewrite ravel_nth_indices by assumption. now rewrite Nat2Z.id.
Qed.

Lemma tile_item (c : ndarray A) (k idx : list Z) :
  in_bounds (shape (tile c k)) idx = true ->
  item (tile c k) idx = item c (map2 Z.div idx k).
Proof.
  intros H. unfold item at 1. cbn [tile shape data] in *.
  now apply (nth_map_indices _ (fun i => item c (map2 Z.div i k))).
Qed.

End WellFormed.

(** ** Tiled arrays *)

Lemma tiled_valid_looks (s k : list Z) :
  Forall (fun m => 1 <= m) s ->
  Forall (fun n => 1 <= n) k ->
  List.length k = List.length s ->
  valid_looks (map2 Z.mul s k) k.
Proof.
  intros Hs. revert k. induction Hs as [|m s Hm _ IH]; intros [|n k] Hk E;
    try discriminate; [constructor|].
  inversion Hk; subst. rewrite map2_cons. constructor; [nia|].
  apply IH; [assumption | cbn in E; lia].
Qed.

Lemma div_mul_shape (s k : list Z) :
  Forall (fun n => 1 <= n) k ->
  List.length k = List.length s ->
  map2 Z.div (map2 Z.mul s k) k = s.
Proof.
  revert k. induction s as [|m s IH]; intros [|n k] Hk E; try discriminate;
    [reflexivity|].
  inversion Hk; subst. rewrite !map2_cons, IH by (cbn in E; auto; lia).
  f_equal. apply Z.div_mul. lia.
Qed.

Lemma div_block_index (k J K : list Z) :
  List.length J = List.length k ->
  in_bounds k K = true ->
  map2 Z.div (block_index k J K) k = J.
Proof.
  revert J K. induction k as [|n k IH]; intros [|j J] [|x K] E HK;
    try discriminate; [reflexivity|].
  apply in_bounds_cons in HK as [Hx HK].
  rewrite block_index_cons, map2_cons, IH by (cbn in E; auto; lia).
  f_equal. rewrite Z.div_add_l by lia. rewrite Z.div_small by lia. lia.
Qed.

Section Tiles.

Context {A : Type} {DA : Dtype A} {EA : ExactMean A}.

(** C4. Let [c] be an array of the data model (its shape a tuple of positive
    integers, one element per multi-index) and [k] a tuple of positive
    integers, one per axis, and let
    [tiled] have shape [c.shape * k] and hold [c[idx // k]] at every index
    [idx] (each element of [c] repeated [k_i] times along axis [i]). Then,
    in exact arithmetic, [multilook tiled k] returns [c]. *)
Theorem multilook_tiled (c tiled : ndarray A) (k : list Z) (spec : pyobj)
        (w : list warning) :
  wf c ->
  Forall (fun m => 1 <= m) (shape c) ->
  Forall (fun n => 1 <= n) k ->
  len k = ndim c ->
  shape tiled = map2 Z.mul (shape c) k ->
  (forall idx, in_bounds (shape tiled) idx = true ->
               item tiled idx = item c (map2 Z.div idx k)) ->
  normalize_nlooks_tuple spec (ndim tiled) = Ok k ->
  fst (multilook tiled spec w) = Ok c.
Proof.
  intros Hwf Hs Hk Hlen Hshape Htile Hn.
  apply len_eq_length in Hlen.
  assert (Hv : valid_looks (shape tiled) k).
  { rewrite Hshape. now apply tiled_valid_looks. }
  rewrite (multilook_valid tiled spec k w Hn Hv). cbn [fst]. f_equal.
  unfold block_means. rewrite Hshape, div_mul_shape by assumption.
  pose proof (map_item_indices c Hwf) as Hdata.
  destruct c as [s d]. cbn [shape data] in *. f_equal.
  etransitivity; [|exact Hdata]. apply map_ext_in. intros J HJ. apply in_indices in HJ.
  assert (HJlen : List.length J = List.length k).
  { rewrite (in_bounds_length _ _ HJ). lia. }
  unfold block.
  rewrite map_ext_in with (g := fun _ => item {| shape := s; data := d |} J).
  - rewrite map_const. apply mean_repeat.
    rewrite length_indices.
    + assert (0 < prod k); [|lia]. apply prod_positive.
      revert Hk. apply Forall_impl. intros; lia.
    + revert Hk. apply Forall_impl. intros; lia.
  - intros K HK. apply in_indices in HK.
    rewrite Htile.
    + now rewrite div_block_index.
    + rewrite Hshape. now apply in_bounds_block.
Qed.

End Tiles.

(** ** [util.ceil_divide] *)

Lemma wrap64_int64 (z : Z) : Util.int64 z -> Util.wrap64 z = z.
Proof.
  unfold Util.int64, Util.wrap64. intros H.
  rewrite Z.mod_small by lia. lia.
Qed.

(** The quotient [(n + d - sign d) // d] is the least integer that is at
    least [n / d]. *)
Lemma ceil_divide_exact_spec (n d : Z) :
  d <> 0 ->
  let q := Util.ceil_divide_exact n d in
  (0 < d -> d * (q - 1) < n <= d * q) /\ (d < 0 -> d * q <= n < d * (q - 1)).
Proof.
  intros Hd q. subst q. unfold Util.ceil_divide_exact.
  pose proof (Z.div_mod (n + d - Z.sgn d) d Hd) as E.
  split; intros Hsign.
  - pose proof (Z.mod_pos_bound (n + d - Z.sgn d) d Hsign).
    rewrite Z.sgn_pos in * by lia. lia.
  - pose proof (Z.mod_neg_bound (n + d - Z.sgn d) d Hsign).
    rewrite Z.sgn_neg in * by lia. lia.
Qed.

Lemma ceil_divide_exact_opp (n d : Z) :
  d <> 0 -> Util.ceil_divide_exact n d = - ((- n) / d).
Proof.
  intros Hd. destruct (ceil_divide_exact_spec n d Hd) as [Hpos Hneg].
  pose proof (Z.div_mod (- n) d Hd) as E.
  destruct (Z.lt_trichotomy d 0) as [Hlt|[->|Hgt]]; [|contradiction|].
  - specialize (Hneg Hlt). pose proof (Z.mod_neg_bound (- n) d Hlt). nia.
  - specialize (Hpos Hgt). pose proof (Z.mod_pos_bound (- n) d Hgt). nia.
Qed.

(** On unbounded integers the formula is the ceiling of the rational
    quotient, for either sign of the divisor. *)
Lemma ceil_divide_exact_ceiling (n d : Z) :
  d <> 0 ->
  Util.ceil_divide_exact n d = Qceiling (inject_Z n / inject_Z d).
Proof.
  intros Hd. rewrite ceil_divide_exact_opp by assumption.
  unfold Qceiling. f_equal. rewrite Zdiv_Qdiv. apply Qfloor_comp.
  rewrite inject_Z_opp. field.
  intros E. apply Hd. unfold Qeq in E. cbn in E. lia.
Qed.

(** For [int64] operands [n] and [d <> 0] whose sum [n + d] is itself an
    [int64], [ceil_divide n d] is the ceiling of the exact quotient [n / d],
    for positive and for negative [d]. *)
Theorem ceil_divide_ceiling (n d : Z) :
  Util.int64 n -> Util.int64 d -> d <> 0 -> Util.int64 (n + d) ->
  Util.ceil_divide n d = Qceiling (inject_Z n / inject_Z d).
Proof.
  intros Hn Hdr Hd Hsum. rewrite <- ceil_divide_exact_ceiling by assumption.
  destruct (ceil_divide_exact_spec n d Hd) as [Hpos Hneg].
  unfold Util.ceil_divide. fold (Util.ceil_divide_exact n d) in *.
  unfold Util.int64 in *.
  rewrite (wrap64_int64 (n + d)) by exact Hsum.
  rewrite (wrap64_int64 (n + d - Z.sgn d)).
  - fold (Util.ceil_divide_exact n d). apply wrap64_int64. unfold Util.int64.
    destruct (Z.lt_trichotomy d 0) as [Hlt|[->|Hgt]]; [|contradiction|].
    + specialize (Hneg Hlt). nia.
    + specialize (Hpos Hgt). nia.
  - unfold Util.int64.
    destruct (Z.lt_trichotomy d 0) as [Hlt|[->|Hgt]]; [|contradiction|].
    + rewrite Z.sgn_neg by lia. lia.
    + rewrite Z.sgn_pos by lia. lia.
Qed.

(** * The model on the inputs of the test suite *)

(** [multilook(arange(1, 6), 2)] is [[1.5, 3.5]], with both warnings. *)
Example multilook_sample_1d :
  match multilook sample_1d (PyInt 2) [] with
  | (Ok out, ws) =>
      shape out = [2] /\ map this (data out) = [3 # 2; 7 # 2]
      /\ ws = [even_warning; remainder_warning]
  | _ => False
  end.
Proof. vm_compute. repeat split; reflexivity. Qed.

(** A 3 x 4 array with windows (3, 2): one row of two block means. *)
Example multilook_sample_2d :
  match multilook sample_2d (PySeq [PyInt 3; PyInt 2]) [] with
  | (Ok out, ws) =>
      shape out = [1; 2] /\ map this (data out) = [9 # 2; 13 # 2]
      /\ ws = [even_warning]
  | _ => False
  end.
Proof. vm_compute. repeat split; reflexivity. Qed.

(** [test_nlooks_length_mismatch] *)
Example nlooks_length_mismatch :
  multilook (zeros [15; 15] : ndarray Qc) (PySeq [PyInt 1; PyInt 2; PyInt 3]) []
  = (Raise (ValueError "length mismatch: length of nlooks (3) must match input array rank (2)"),
     []).
Proof. reflexivity. Qed.

(** [test_zero_or_negative_nlooks] and [test_nlooks_too_large] *)
Example zero_or_negative_nlooks :
  multilook (zeros [15; 15] : ndarray Qc) (PySeq [PyInt (-1); PyInt 3]) []
  = (Raise (ValueError "number of looks must be >= 1"), [])
  /\ multilook (zeros [15; 15] : ndarray Qc) (PySeq [PyInt 1; PyInt 16]) []
     = (Raise (ValueError "number of looks should not exceed array shape"), []).
Proof. split; reflexivity. Qed.

(** [test_throwaway_samples_warning]: one warning, shape (7, 4). *)
Example throwaway_samples_warning :
  match multilook (zeros [23; 21] : ndarray Qc) (PySeq [PyInt 3; PyInt 5]) [] with
  | (Ok out, ws) => shape out = [7; 4] /\ ws = [remainder_warning]
  | _ => False
  end.
Proof. vm_compute. split; reflexivity. Qed.

(** A float window size is truncated; [None] is neither an int nor iterable. *)
Example normalize_other_objects :
  normalize_nlooks_tuple (PyFloat (5 # 2)) 3 = Ok [2; 2; 2]
  /\ normalize_nlooks_tuple PyNone 3
     = Raise (TypeError "'NoneType' object is not iterable").
Proof. split; reflexivity. Qed.

(** [ceil_divide] rounds up for either sign of the divisor. *)
Example ceil_divide_signs :
  Util.ceil_divide 7 2 = 4 /\ Util.ceil_divide (-7) 2 = -3
  /\ Util.ceil_divide 7 (-2) = -3 /\ Util.ceil_divide (-7) (-2) = 4.
Proof. repeat split; reflexivity. Qed.

(** * The statements on sample inputs *)

Lemma sample_1d_valid : valid_looks (shape sample_1d) [2].
Proof. repeat constructor; lia. Defined.

Lemma sample_2d_wf : wf sample_2d.
Proof. split; [repeat constructor; lia | reflexivity]. Defined.

(** [multilook(arange(1, 6), 2)]: two blocks, the fifth sample is dropped. *)
Lemma multilook_block_mean_witness :
  normalize_nlooks_tuple (PyInt 2) (ndim sample_1d) = Ok [2]
  /\ valid_looks (shape sample_1d) [2]
  /\ exists out,
       fst (multilook sample_1d (PyInt 2) []) = Ok out
       /\ shape out = [2]
       /\ len (data out) = 2
       /\ item out [0] = mean_of [real 1; real 2]
       /\ item out [1] = mean_of [real 3; real 4]
       /\ (forall J, in_bounds [2] J = true ->
             item out J = mean_of (block sample_1d [2] J)
             /\ len (block sample_1d [2] J) = 2)
       /\ (forall arr' : ndarray Qc,
             shape arr' = [5] ->
             (forall idx, in_bounds [4] idx = true ->
                          item arr' idx = item sample_1d idx) ->
             fst (multilook arr' (PyInt 2) []) = Ok out).
Proof.
  split; [reflexivity|]. split; [exact sample_1d_valid|].
  destruct (multilook_block_mean sample_1d (PyInt 2) [2] [] eq_refl sample_1d_valid)
    as (out & Hout & Hshape & Hsize & Hitem & _ & Hrem).
  exists out. split; [exact Hout|]. split; [exact Hshape|].
  split; [rewrite Hsize, Hshape; reflexivity|].
  split; [exact (proj1 (Hitem [0] eq_refl))|].
  split; [exact (proj1 (Hitem [1] eq_refl))|].
  split; [|rewrite Hshape in Hrem; exact Hrem].
  intros J HJ. destruct (Hitem J HJ) as (H1 & H2 & _). split; [exact H1 | exact H2].
Defined.

(** [multilook(zeros((23, 21)), (3, 5))] has shape [(7, 4)]. *)
Lemma multilook_shape_witness :
  valid_looks [23; 21] [3; 5]
  /\ exists out : ndarray Qc,
       fst (multilook (zeros [23; 21] : ndarray Qc) (PySeq [PyInt 3; PyInt 5]) []) = Ok out
       /\ ndim out = 2
       /\ shape out = [7; 4].
Proof.
  assert (Hv : valid_looks [23; 21] [3; 5]) by (repeat constructor; lia).
  split; [exact Hv|].
  destruct (multilook_shape (zeros [23; 21] : ndarray Qc) (PySeq [PyInt 3; PyInt 5]) [3; 5] []
                            eq_refl Hv)
    as (out & Hout & Hrank & Hshape & _).
  exists out. split; [exact Hout|]. split; [exact Hrank | exact Hshape].
Defined.

(** [multilook(zeros((15, 15)), (5, 0))] raises on the second axis. *)
Lemma validate_nlooks_first_offender_witness :
  validate_nlooks [5; 0] (zeros [15; 15] : ndarray Qc) []
  = (Raise (ValueError "number of looks must be >= 1"), [])
  /\ multilook (zeros [15; 15] : ndarray Qc) (PySeq [PyInt 5; PyInt 0]) []
     = (Raise (ValueError "number of looks must be >= 1"), []).
Proof.
  assert (Hbefore : forall (j : nat) (m' n' : Z), (j < 1)%nat ->
            nth_error (combine [15; 15] [5; 0]) j = Some (m', n') -> 1 <= n' <= m').
  { intros j m' n' Hj. destruct j as [|j]; [|lia]. cbn. intros E.
    injection E as E1 E2. lia. }
  assert (Hbad : 0 < 1 \/ 0 > 15) by (left; lia).
  destruct (validate_nlooks_first_offender (zeros [15; 15] : ndarray Qc) [5; 0] [] 1 15 0
              eq_refl Hbefore Hbad)
    as [Hval Hml].
  split; [exact Hval|]. exact (Hml (PySeq [PyInt 5; PyInt 0]) eq_refl).
Defined.

(** [multilook(zeros((15, 16)), (3, 4))] warns about the even window only. *)
Lemma validate_nlooks_warnings_witness :
  passes_checks [15; 16] [3; 4]
  /\ exists ws,
       validate_nlooks [3; 4] (zeros [15; 16] : ndarray Qc) [] = (Ok tt, [] ++ ws)
       /\ (In even_warning ws <-> exists n, In n [3; 4] /\ n mod 2 = 0)
       /\ (In remainder_warning ws <->
           exists m n, In (m, n) [(15, 3); (16, 4)] /\ m mod n <> 0)
       /\ (exists out, multilook (zeros [15; 16] : ndarray Qc)
                                 (PySeq [PyInt 3; PyInt 4]) [] = (Ok out, [] ++ ws)).
Proof.
  assert (Hp : passes_checks [15; 16] [3; 4]) by (repeat constructor; cbn; lia).
  split; [exact Hp|].
  destruct (validate_nlooks_warnings (zeros [15; 16] : ndarray Qc) [3; 4] [] Hp)
    as (ws & Hval & Heven & Hrem & _ & _ & _ & Hml).
  exists ws. split; [exact Hval|]. split; [exact Heven|]. split; [exact Hrem|].
  exact (Hml (PySeq [PyInt 3; PyInt 4]) eq_refl).
Defined.

(** [multilook(arr, 3)] on a 3 x 4 array is [multilook(arr, (3, 3))]. *)
Lemma multilook_scalar_broadcast_witness :
  py_int (PyInt 3) = Ok 3
  /\ normalize_nlooks_tuple (PyInt 3) 2 = Ok [3; 3]
  /\ multilook sample_2d (PyInt 3) []
     = multilook sample_2d (PySeq [PyInt 3; PyInt 3]) [].
Proof.
  split; [reflexivity|].
  destruct (multilook_scalar_broadcast sample_2d (PyInt 3) 3 [] eq_refl) as [Hn Hm].
  split; [exact (Hn 2) | exact Hm].
Defined.


(** [multilook(arange(12).reshape(3, 4), (1, 2))] runs to completion. *)
Lemma multilook_total_witness :
  normalize_nlooks_tuple (PySeq [PyInt 1; PyInt 2]) (ndim sample_2d) = Ok [1; 2]
  /\ Util.interleave [3; 2] [1; 2] = Ok [3; 1; 2; 2]
  /\ exists out,
       multilook sample_2d (PySeq [PyInt 1; PyInt 2]) []
       = (Ok out, [] ++ advisories [1; 2] [3; 4]).
Proof.
  split; [reflexivity|].
  destruct (multilook_total sample_2d (PySeq [PyInt 1; PyInt 2]) [1; 2] [] eq_refl)
    as [Hinter Hsteps].
  split.
  - exact (proj2 (Hinter [3; 2] eq_refl)).
  - destruct Hsteps as (s1 & s2 & a1 & s3 & a2 & out & _ & _ & _ & _ & _ & _ & _ & H).
    + repeat constructor; lia.
    + exists out. exact H.
Defined.

(** The 2-D test, [arange(12).reshape(3, 4)] tiled by [(7, 5)], and the
    complex test, tiled by 3 along both axes. *)
Lemma multilook_tiled_witness :
  wf sample_2d
  /\ shape (tile sample_2d [7; 5]) = [21; 20]
  /\ fst (multilook (tile sample_2d [7; 5]) (PySeq [PyInt 7; PyInt 5]) []) = Ok sample_2d
  /\ fst (multilook (tile sample_complex [3; 3]) (PyInt 3) []) = Ok sample_complex.
Proof.
  split; [exact sample_2d_wf|]. split; [reflexivity|]. split.
  - apply (multilook_tiled sample_2d (tile sample_2d [7; 5]) [7; 5]).
    + exact sample_2d_wf.
    + repeat constructor; lia.
    + repeat constructor; lia.
    + reflexivity.
    + reflexivity.
    + intros idx. apply tile_item.
    + reflexivity.
  - apply (multilook_tiled sample_complex (tile sample_complex [3; 3]) [3; 3]).
    + split; [repeat constructor; lia | reflexivity].
    + repeat constructor; lia.
    + repeat constructor; lia.
    + reflexivity.
    + reflexivity.
    + intros idx. apply tile_item.
    + reflexivity.
Defined.

(** An array with an empty axis is not an array of the data model. Its tiling
    has extent 0, every window size exceeds it, and [multilook] raises. *)
Lemma empty_tiling_rejected :
  wf empty_1d
  /\ Forall (fun n => 1 <= n) [1]
  /\ len [1] = ndim empty_1d
  /\ fst (multilook (tile empty_1d [1]) (PySeq [PyInt 1]) [])
     = Raise (ValueError "number of looks should not exceed array shape")
  /\ fst (multilook (tile empty_1d [1]) (PySeq [PyInt 1]) []) <> Ok empty_1d.
Proof.
  split; [split; [repeat constructor; lia | reflexivity]|].
  split; [repeat constructor; lia|]. split; [reflexivity|].
  assert (E : fst (multilook (tile empty_1d [1]) (PySeq [PyInt 1]) [])
              = Raise (ValueError "number of looks should not exceed array shape"))
    by reflexivity.
  split; [exact E|]. rewrite E. discriminate.
Qed.

(** [ceil_divide(7, -2)] is [-3]. *)
Lemma ceil_divide_ceiling_witness :
  Util.ceil_divide 7 (-2) = Qceiling (inject_Z 7 / inject_Z (-2))
  /\ Util.ceil_divide 7 (-2) = -3.
Proof.
  split; [|reflexivity].
  apply ceil_divide_ceiling; unfold Util.int64; lia.
Defined.

(** C10. The docstring of [ceil_divide] promises the smallest integer that is
    at least the quotient. At [n = 2**63 - 1], [d = 2], both [int64] values,
    that integer is [2**62], itself an [int64]; but the sum [n + d] wraps and
    the code returns [-2**62]. *)
Lemma ceil_divide_overflow :
  Util.int64 (2 ^ 63 - 1)
  /\ Util.int64 2
  /\ Qceiling (inject_Z (2 ^ 63 - 1) / inject_Z 2) = 2 ^ 62
  /\ Util.int64 (2 ^ 62)
  /\ Util.wrap64 (2 ^ 63 - 1 + 2) = - 2 ^ 63 + 1
  /\ Util.ceil_divide (2 ^ 63 - 1) 2 = - 2 ^ 62
  /\ Util.ceil_divide (2 ^ 63 - 1) 2 <> Qceiling (inject_Z (2 ^ 63 - 1) / inject_Z 2).
Proof.
  split; [unfold Util.int64; lia|]. split; [unfold Util.int64; lia|].
  split; [reflexivity|]. split; [unfold Util.int64; lia|].
  split; [reflexivity|]. split; [reflexivity|].
  vm_compute. discriminate.
Qed.

(** * Further properties of the code *)

(** ** [util.interleave] *)

Lemma nth_error_weave (T : Type) (s1 s2 : list T) (i : nat) (x y : T) :
  nth_error s1 i = Some x -> nth_error s2 i = Some y ->
  nth_error (weave s1 s2) (2 * i) = Some x
  /\ nth_error (weave s1 s2) (2 * i + 1) = Some y.
Proof.
  revert s2 i. induction s1 as [|a s1 IH]; intros [|b s2] [|i] H1 H2;
    try discriminate.
  - cbn in *. split; assumption.
  - rewrite weave_cons.
    replace (2 * S i)%nat with (S (S (2 * i))) by lia.
    replace (S (S (2 * i)) + 1)%nat with (S (S (2 * i + 1))) by lia.
    cbn [nth_error]. now apply IH.
Qed.

Lemma weave_inj (T : Type) (s1 s2 t1 t2 : list T) :
  List.length s1 = List.length s2 -> List.length t1 = List.length t2 ->
  weave s1 s2 = weave t1 t2 -> s1 = t1 /\ s2 = t2.
Proof.
  revert s2 t1 t2.
  induction s1 as [|a s1 IH]; intros [|b s2] [|c t1] [|d t2] E1 E2 H;
    try discriminate; [split; reflexivity|].
  rewrite !weave_cons in H. injection H as -> -> H.
  destruct (IH s2 t1 t2) as [-> ->]; [cbn in *; lia..|exact H|].
  split; reflexivity.
Qed.

Lemma interleave_inv (T : Type) (s1 s2 l : list T) :
  Util.interleave s1 s2 = Ok l ->
  List.length s1 = List.length s2 /\ l = weave s1 s2.
Proof.
  unfold Util.interleave. destruct (len s1 =? len s2) eqn:E; cbn [negb];
    [|discriminate].
  intros H. injection H as <-. apply Z.eqb_eq in E.
  split; [now apply len_eq_length | reflexivity].
Qed.

(** [interleave] either raises its length-mismatch [ValueError], exactly when
    the lengths differ, or returns a list twice as long that holds [s1] at the
    even positions and [s2] at the odd ones. *)
Theorem interleave_positions (T : Type) (s1 s2 : list T) :
  match Util.interleave s1 s2 with
  | Ok l =>
      len s1 = len s2
      /\ len l = 2 * len s1
      /\ (forall i x y,
            nth_error s1 i = Some x -> nth_error s2 i = Some y ->
            nth_error l (2 * i) = Some x /\ nth_error l (2 * i + 1) = Some y)
  | Raise e =>
      len s1 <> len s2
      /\ e = ValueError ("length mismatch: sequence lengths must be equal, got "
                         ++ py_str (len s1) ++ " and " ++ py_str (len s2))%string
  end.
Proof.
  destruct (Util.interleave s1 s2) as [l|e] eqn:E.
  - apply interleave_inv in E as [Hlen ->].
    split; [now apply len_eq_length|]. split.
    + unfold len. rewrite length_weave by assumption. lia.
    + intros i x y. apply nth_error_weave.
  - unfold Util.interleave in E. destruct (len s1 =? len s2) eqn:El; cbn [negb] in E;
      [discriminate|].
    apply Z.eqb_neq in El. split; [exact El|]. now injection E as <-.
Qed.

(** The interleaved list determines both inputs. *)
Theorem interleave_injective (T : Type) (s1 s2 t1 t2 l : list T) :
  Util.interleave s1 s2 = Ok l -> Util.interleave t1 t2 = Ok l ->
  s1 = t1 /\ s2 = t2.
Proof.
  intros H1 H2. apply interleave_inv in H1 as [E1 ->].
  apply interleave_inv in H2 as [E2 H]. now apply weave_inj.
Qed.

(** ** [util.iseven] *)

(** [iseven] holds exactly of the multiples of two, negative ones included,
    and fails exactly of their successors. *)
Theorem iseven_parity (n : Z) :
  (Util.iseven n = true <-> exists k, n = 2 * k)
  /\ (Util.iseven n = false <-> exists k, n = 2 * k + 1)
  /\ Util.iseven (- n) = Util.iseven n
  /\ Util.iseven (n + 1) = negb (Util.iseven n).
Proof.
  unfold Util.iseven.
  pose proof (Z.mod_pos_bound n 2 ltac:(lia)) as Hb.
  pose proof (Z.div_mod n 2 ltac:(lia)) as Hn.
  pose proof (Z.mod_pos_bound (- n) 2 ltac:(lia)) as Hb'.
  pose proof (Z.div_mod (- n) 2 ltac:(lia)) as Hn'.
  pose proof (Z.mod_pos_bound (n + 1) 2 ltac:(lia)) as Hb''.
  pose proof (Z.div_mod (n + 1) 2 ltac:(lia)) as Hn''.
  split; [|split; [|split]].
  - rewrite Z.eqb_eq. split; [intros E; exists (n / 2); lia | intros [k ->]; lia].
  - rewrite Z.eqb_neq. split; [intros E; exists (n / 2); lia | intros [k ->]; lia].
  - destruct (n mod 2 =? 0) eqn:E1; destruct (- n mod 2 =? 0) eqn:E2;
      try reflexivity;
      rewrite ?Z.eqb_eq, ?Z.eqb_neq in E1, E2; lia.
  - destruct (n mod 2 =? 0) eqn:E1; destruct ((n + 1) mod 2 =? 0) eqn:E2;
      try reflexivity;
      rewrite ?Z.eqb_eq, ?Z.eqb_neq in E1, E2; lia.
Qed.

(** ** [util.ceil_divide] and floor division *)

Lemma ceil_divide_no_overflow (n d : Z) :
  Util.int64 n -> Util.int64 d -> d <> 0 -> Util.int64 (n + d) ->
  Util.ceil_divide n d = Util.ceil_divide_exact n d.
Proof.
  intros Hn Hdr Hd Hsum.
  destruct (ceil_divide_exact_spec n d Hd) as [Hpos Hneg].
  unfold Util.ceil_divide. rewrite (wrap64_int64 (n + d)) by exact Hsum.
  assert (Hs : Util.int64 (n + d - Z.sgn d)).
  { unfold Util.int64 in *.
    destruct (Z.lt_trichotomy d 0) as [Hlt|[->|Hgt]]; [|contradiction|].
    - rewrite Z.sgn_neg by lia. lia.
    - rewrite Z.sgn_pos by lia. lia. }
  rewrite (wrap64_int64 _ Hs). fold (Util.ceil_divide_exact n d).
  apply wrap64_int64. unfold Util.int64 in *.
  destruct (Z.lt_trichotomy d 0) as [Hlt|[->|Hgt]]; [|contradiction|].
  - specialize (Hneg Hlt). nia.
  - specialize (Hpos Hgt). nia.
Qed.

Lemma ceil_divide_exact_floor (n d : Z) :
  d <> 0 ->
  Util.ceil_divide_exact n d = n / d + (if n mod d =? 0 then 0 else 1).
Proof.
  intros Hd. destruct (ceil_divide_exact_spec n d Hd) as [Hpos Hneg].
  pose proof (Z.div_mod n d Hd) as E.
  destruct (Z.lt_trichotomy d 0) as [Hlt|[->|Hgt]]; [|contradiction|].
  - specialize (Hneg Hlt). pose proof (Z.mod_neg_bound n d Hlt).
    destruct (n mod d =? 0) eqn:Em; rewrite ?Z.eqb_eq, ?Z.eqb_neq in Em; nia.
  - specialize (Hpos Hgt). pose proof (Z.mod_pos_bound n d Hgt).
    destruct (n mod d =? 0) eqn:Em; rewrite ?Z.eqb_eq, ?Z.eqb_neq in Em; nia.
Qed.

(** When [n + d] does not overflow, [ceil_divide n d] is the floor quotient
    [n // d] if [d] divides [n] and one more otherwise; it also is
    [-((-n) // d)]. *)
Theorem ceil_divide_floor (n d : Z) :
  Util.int64 n -> Util.int64 d -> d <> 0 -> Util.int64 (n + d) ->
  Util.ceil_divide n d = n / d + (if n mod d =? 0 then 0 else 1)
  /\ Util.ceil_divide n d = - ((- n) / d).
Proof.
  intros Hn Hdr Hd Hsum. rewrite ceil_divide_no_overflow by assumption.
  split; [now apply ceil_divide_exact_floor | now apply ceil_divide_exact_opp].
Qed.

(** ** [normalize_nlooks_tuple]: errors, lengths, canonical form *)

Lemma py_ints_first_failure (front back : list pyobj) (ns : list Z) (bad : pyobj) (e : exn) :
  Forall2 (fun o n => py_int o = Ok n) front ns ->
  py_int bad = Raise e ->
  py_ints (front ++ bad :: back) = Raise e.
Proof.
  intros H Hbad. induction H as [|o n front ns Ho _ IH].
  - cbn. now rewrite Hbad.
  - cbn [app py_ints]. now rewrite Ho, IH.
Qed.

Lemma py_ints_tuple (t : list Z) : py_ints (map PyInt t) = Ok t.
Proof. induction t as [|n t IH]; [reflexivity|]. cbn. now rewrite IH. Qed.

(** A sequence with an element [int()] rejects raises that element's error,
    the first such one, whatever the length of the sequence: the length is
    only compared once every element has been converted. *)
Theorem normalize_nlooks_tuple_bad_element
        (front back : list pyobj) (ns : list Z) (bad : pyobj) (e : exn) (nd : Z) :
  Forall2 (fun o n => py_int o = Ok n) front ns ->
  py_int bad = Raise e ->
  normalize_nlooks_tuple (PySeq (front ++ bad :: back)) nd = Raise e.
Proof.
  intros H Hbad. unfold normalize_nlooks_tuple. cbn [py_int py_iter].
  now rewrite (py_ints_first_failure front back ns bad e H Hbad).
Qed.

Lemma normalize_length_any (o : pyobj) (nd : Z) (t : list Z) :
  normalize_nlooks_tuple o nd = Ok t -> len t = Z.max 0 nd.
Proof.
  unfold normalize_nlooks_tuple.
  destruct (py_int o) as [n|[]] eqn:Eo; try discriminate.
  - intros E. injection E as <-. rewrite len_repeat. lia.
  - destruct (py_iter o) as [items|]; [|discriminate].
    destruct (py_ints items) as [t'|]; [|discriminate].
    destruct (len t' =? nd) eqn:El; [|discriminate].
    cbn [negb]. intros E. injection E as <-. apply Z.eqb_eq in El.
    pose proof (len_nonneg _ t'). lia.
Qed.

(** Whatever [normalize_nlooks_tuple] returns has [max(0, ndim)] entries: a
    scalar given a negative rank yields the empty tuple, and a sequence is
    never accepted for a negative rank. *)
Theorem normalize_nlooks_tuple_length (o : pyobj) (nd : Z) (t : list Z) :
  normalize_nlooks_tuple o nd = Ok t ->
  len t = Z.max 0 nd
  /\ (nd < 0 -> t = [] /\ exists n, py_int o = Ok n).
Proof.
  intros H. split; [now apply normalize_length_any in H|].
  intros Hnd. pose proof (normalize_length_any _ _ _ H) as Hlen.
  assert (Ht : t = []).
  { destruct t; [reflexivity|]. unfold len in Hlen. cbn in Hlen. lia. }
  split; [exact Ht|].
  unfold normalize_nlooks_tuple in H.
  destruct (py_int o) as [n|[]] eqn:Eo; try discriminate; [now exists n|].
  destruct (py_iter o) as [items|]; [|discriminate].
  destruct (py_ints items) as [t'|]; [|discriminate].
  destruct (len t' =? nd) eqn:El; [|discriminate].
  apply Z.eqb_eq in El. pose proof (len_nonneg _ t'). lia.
Qed.

Lemma normalize_tuple (t : list Z) (nd : Z) :
  len t = nd -> normalize_nlooks_tuple (py_tuple t) nd = Ok t.
Proof.
  intros E. unfold py_tuple. rewrite (normalize_sequence _ t nd (py_ints_tuple t)).
  apply Z.eqb_eq in E. now rewrite E.
Qed.

Section Canonical.

Context {A : Type} {DA : Dtype A}.

(** Normalization is idempotent: the tuple it returns, passed again, is
    returned unchanged; so [multilook] on any accepted specification is
    [multilook] on its normalized tuple. *)
Theorem multilook_normalized (arr : ndarray A) (spec : pyobj) (t : list Z)
        (w : list warning) :
  normalize_nlooks_tuple spec (ndim arr) = Ok t ->
  normalize_nlooks_tuple (py_tuple t) (ndim arr) = Ok t
  /\ multilook arr spec w = multilook arr (py_tuple t) w.
Proof.
  intros H.
  assert (Ht : normalize_nlooks_tuple (py_tuple t) (ndim arr) = Ok t).
  { apply normalize_tuple. apply normalize_length in H; [exact H | apply len_nonneg]. }
  split; [exact Ht|].
  unfold multilook, bind at 1 3, lift at 1 8. now rewrite H, Ht.
Qed.

End Canonical.

(** ** [validate_nlooks]: exactly which inputs pass *)

Lemma check_looks_inv (pairs : list (Z * Z)) :
  match check_looks pairs with
  | Ok _ => Forall (fun p => 1 <= snd p <= fst p) pairs
  | Raise e =>
      ~ Forall (fun p => 1 <= snd p <= fst p) pairs
      /\ (e = ValueError must_be_positive \/ e = ValueError exceeds_shape)
  end.
Proof.
  induction pairs as [|[m n] pairs IH]; [constructor|].
  cbn [check_looks].
  destruct (n <? 1) eqn:E1.
  { apply Z.ltb_lt in E1. split; [|now left].
    intros H. inversion H as [|p ps Hp _]; subst. cbn in Hp. lia. }
  destruct (n >? m) eqn:E2.
  { rewrite Z.gtb_ltb in E2. apply Z.ltb_lt in E2. split; [|now right].
    intros H. inversion H as [|p ps Hp _]; subst. cbn in Hp. lia. }
  apply Z.ltb_ge in E1. rewrite Z.gtb_ltb in E2. apply Z.ltb_ge in E2.
  destruct (check_looks pairs) as [u|e].
  - constructor; [cbn; lia | exact IH].
  - destruct IH as [Hnot He]. split; [|exact He].
    intros H. inversion H; subst. contradiction.
Qed.

Lemma combine_app_extra (T U : Type) (s : list T) (l extra : list U) :
  (List.length s <= List.length l)%nat -> combine s (l ++ extra) = combine s l.
Proof.
  revert l. induction s as [|x s IH]; intros [|y l] H; try reflexivity.
  - cbn in H. lia.
  - cbn [app combine]. f_equal. apply IH. cbn in H. lia.
Qed.

Lemma combine_extra_app (T U : Type) (s more : list T) (l : list U) :
  (List.length l <= List.length s)%nat -> combine (s ++ more) l = combine s l.
Proof.
  revert l. induction s as [|x s IH]; intros [|y l] H.
  - cbn. now destruct more.
  - cbn in H. lia.
  - reflexivity.
  - cbn [app combine]. f_equal. apply IH. cbn in H. lia.
Qed.

Section Validation.

Context {A : Type} {DA : Dtype A}.

(** [validate_nlooks] returns normally exactly when every zipped pair
    satisfies [1 <= n <= m]; when it raises, the error is one of its two
    [ValueError]s and nothing has been added to the warnings. *)
Theorem validate_nlooks_outcome (nlooks : list Z) (arr : ndarray A) (w : list warning) :
  match validate_nlooks nlooks arr w with
  | (Ok _, w') =>
      passes_checks (shape arr) nlooks /\ w' = w ++ advisories nlooks (shape arr)
  | (Raise e, w') =>
      ~ passes_checks (shape arr) nlooks
      /\ w' = w
      /\ (e = ValueError "number of looks must be >= 1"
          \/ e = ValueError "number of looks should not exceed array shape")
  end.
Proof.
  pose proof (check_looks_inv (combine (shape arr) nlooks)) as H.
  destruct (check_looks (combine (shape arr) nlooks)) as [u|e] eqn:E.
  - rewrite (validate_nlooks_passes nlooks arr w H). split; [exact H | reflexivity].
  - rewrite (validate_nlooks_raises nlooks arr w e E). destruct H as [Hnot He].
    split; [exact Hnot|]. split; [reflexivity | exact He].
Qed.

(** [validate_nlooks] does not notice a length mismatch. Window sizes beyond
    the array's rank are never range-checked (though they count for the
    even-window warning), and axes beyond the length of [nlooks] are not
    looked at. *)
Theorem validate_nlooks_length_blind (nlooks extra more : list Z) (arr arr' : ndarray A)
        (w : list warning) :
  List.length nlooks = List.length (shape arr) ->
  shape arr' = shape arr ++ more ->
  fst (validate_nlooks (nlooks ++ extra) arr w) = fst (validate_nlooks nlooks arr w)
  /\ (existsb Util.iseven extra = true ->
      passes_checks (shape arr) nlooks ->
      In even_warning (snd (validate_nlooks (nlooks ++ extra) arr [])))
  /\ validate_nlooks nlooks arr' w = validate_nlooks nlooks arr w.
Proof.
  intros Hlen Hshape.
  assert (Hc : combine (shape arr) (nlooks ++ extra) = combine (shape arr) nlooks).
  { apply combine_app_extra. lia. }
  assert (Hc' : combine (shape arr') nlooks = combine (shape arr) nlooks).
  { rewrite Hshape. apply combine_extra_app. lia. }
  split; [|split].
  - unfold validate_nlooks, bind, lift. rewrite Hc.
    destruct (check_looks (combine (shape arr) nlooks)) as [u|e]; [|reflexivity].
    destruct (existsb Util.iseven (nlooks ++ extra));
      destruct (existsb Util.iseven nlooks);
      destruct (existsb _ (combine (shape arr) nlooks)); reflexivity.
  - intros Hextra Hp.
    assert (Hp' : passes_checks (shape arr) (nlooks ++ extra)).
    { unfold passes_checks. now rewrite Hc. }
    rewrite (validate_nlooks_passes _ arr [] Hp'). cbn [snd app].
    apply in_even_advisories. rewrite existsb_app, Hextra. apply orb_true_r.
  - unfold validate_nlooks. now rewrite Hc'.
Qed.

End Validation.

(** ** [multilook]: every outcome *)

Section Outcomes.

Context {A : Type} {DA : Dtype A}.

(** What [multilook] does on every input: it forwards the error of
    normalization, else that of the first failing axis, and otherwise
    returns the block means with the advisory warnings. No error of the
    array operations can escape. *)
Lemma multilook_cases (arr : ndarray A) (spec : pyobj) (w : list warning) :
  match normalize_nlooks_tuple spec (ndim arr) with
  | Raise e => multilook arr spec w = (Raise e, w)
  | Ok nlooks =>
      match check_looks (combine (shape arr) nlooks) with
      | Raise e =>
          multilook arr spec w = (Raise e, w)
          /\ ~ valid_looks (shape arr) nlooks
          /\ (e = ValueError must_be_positive \/ e = ValueError exceeds_shape)
      | Ok _ =>
          valid_looks (shape arr) nlooks
          /\ multilook arr spec w
             = (Ok (block_means arr nlooks), w ++ advisories nlooks (shape arr))
      end
  end.
Proof.
  destruct (normalize_nlooks_tuple spec (ndim arr)) as [nlooks|e] eqn:En.
  - pose proof (check_looks_inv (combine (shape arr) nlooks)) as H.
    destruct (check_looks (combine (shape arr) nlooks)) as [u|e] eqn:Ec.
    + assert (Hv : valid_looks (shape arr) nlooks) by now apply (normalize_valid arr spec).
      split; [exact Hv | now apply multilook_valid].
    + destruct H as [Hnot He]. split; [now apply multilook_raises with (nlooks := nlooks)|].
      split; [|exact He]. intros Hv. apply Hnot. now apply valid_looks_passes.
  - unfold multilook, bind, lift. now rewrite En.
Qed.

(** [multilook] returns an array exactly when the specification normalizes
    to a tuple with [1 <= nlooks[i] <= arr.shape[i]] on every axis. *)
Theorem multilook_succeeds_iff (arr : ndarray A) (spec : pyobj) (w : list warning) :
  (exists out, fst (multilook arr spec w) = Ok out)
  <-> (exists nlooks, normalize_nlooks_tuple spec (ndim arr) = Ok nlooks
                      /\ valid_looks (shape arr) nlooks).
Proof.
  pose proof (multilook_cases arr spec w) as H.
  destruct (normalize_nlooks_tuple spec (ndim arr)) as [nlooks|e].
  - destruct (check_looks (combine (shape arr) nlooks)) as [u|e].
    + destruct H as [Hv H]. rewrite H. split.
      * intros _. now exists nlooks.
      * intros _. eexists. reflexivity.
    + destruct H as (H & Hnot & _). rewrite H. split.
      * intros [out Ho]. discriminate.
      * intros (nl & E & Hv). injection E as <-. contradiction.
  - rewrite H. split.
    + intros [out Ho]. discriminate.
    + intros (nl & E & _). discriminate.
Qed.

(** When [multilook] raises, it has emitted no warning, and the error is
    the one normalization raised or one of the two window-size
    [ValueError]s: never an error of the array operations. *)
Theorem multilook_raises_early (arr : ndarray A) (spec : pyobj) (w : list warning)
        (e : exn) :
  fst (multilook arr spec w) = Raise e ->
  snd (multilook arr spec w) = w
  /\ (normalize_nlooks_tuple spec (ndim arr) = Raise e
      \/ e = ValueError "number of looks must be >= 1"
      \/ e = ValueError "number of looks should not exceed array shape").
Proof.
  pose proof (multilook_cases arr spec w) as H.
  destruct (normalize_nlooks_tuple spec (ndim arr)) as [nlooks|e'].
  - destruct (check_looks (combine (shape arr) nlooks)) as [u|e'].
    + destruct H as [_ H]. rewrite H. discriminate.
    + destruct H as (H & _ & He). rewrite H. cbn [fst snd].
      intros E. injection E as <-. split; [reflexivity|]. right. exact He.
  - rewrite H. cbn [fst snd]. intros E. injection E as <-.
    split; [reflexivity|]. now left.
Qed.

Lemma multilook_ok_inv (arr : ndarray A) (spec : pyobj) (w : list warning)
      (out : ndarray A) :
  fst (multilook arr spec w) = Ok out ->
  exists nlooks, normalize_nlooks_tuple spec (ndim arr) = Ok nlooks
                 /\ valid_looks (shape arr) nlooks
                 /\ out = block_means arr nlooks
                 /\ snd (multilook arr spec w) = w ++ advisories nlooks (shape arr).
Proof.
  pose proof (multilook_cases arr spec w) as H.
  destruct (normalize_nlooks_tuple spec (ndim arr)) as [nlooks|e'].
  - destruct (check_looks (combine (shape arr) nlooks)) as [u|e'].
    + destruct H as [Hv H]. rewrite H. cbn [fst snd]. intros E. injection E as <-.
      exists nlooks. repeat split; auto.
    + destruct H as (H & _). rewrite H. discriminate.
  - rewrite H. discriminate.
Qed.

(** Every array [multilook] returns is well formed, with one element per
    multi-index, and has no empty axis, even when the input had more or
    fewer elements than its shape says. *)
Theorem multilook_result_wf (arr : ndarray A) (spec : pyobj) (w : list warning)
        (out : ndarray A) :
  fst (multilook arr spec w) = Ok out ->
  wf out /\ Forall (fun m => 1 <= m) (shape out).
Proof.
  intros H. apply multilook_ok_inv in H as (nlooks & _ & Hv & -> & _).
  pose proof (valid_looks_out_positive _ _ Hv) as Hpos.
  cbn [block_means shape]. split; [split|].
  - cbn [block_means shape]. now apply Forall_positive_nonneg.
  - cbn [block_means shape data]. rewrite len_map.
    apply len_indices. now apply Forall_positive_nonneg.
  - revert Hpos. apply Forall_impl. intros; lia.
Qed.

End Outcomes.

(** ** [multilook] on particular windows and arrays *)

Lemma map2_div_ones (s : list Z) : map2 Z.div s (repeat 1 (List.length s)) = s.
Proof.
  induction s as [|m s IH]; [reflexivity|].
  cbn [List.length repeat]. rewrite map2_cons, IH. f_equal. apply Z.div_1_r.
Qed.

Lemma map2_mul_ones (s : list Z) : map2 Z.mul s (repeat 1 (List.length s)) = s.
Proof.
  induction s as [|m s IH]; [reflexivity|].
  cbn [List.length repeat]. rewrite map2_cons, IH. f_equal. lia.
Qed.

Lemma map2_div_self (s : list Z) :
  Forall (fun m => 1 <= m) s -> map2 Z.div s s = repeat 1 (List.length s).
Proof.
  induction 1 as [|m s Hm _ IH]; [reflexivity|].
  rewrite map2_cons, IH. cbn [List.length repeat]. f_equal. apply Z.div_same. lia.
Qed.

Lemma indices_ones (n : nat) : indices (repeat 1 n) = [repeat 0 n].
Proof.
  induction n as [|n IH]; [reflexivity|].
  cbn [repeat indices]. rewrite IH. reflexivity.
Qed.

Lemma block_index_origin (nlooks K : list Z) :
  List.length K = List.length nlooks ->
  block_index nlooks (repeat 0 (List.length nlooks)) K = K.
Proof.
  revert K. induction nlooks as [|n nlooks IH]; intros [|k K] E; try discriminate;
    [reflexivity|].
  cbn [List.length repeat]. rewrite block_index_cons, IH by (cbn in E; lia).
  f_equal.
Qed.

Lemma valid_looks_ones (s : list Z) :
  Forall (fun m => 1 <= m) s -> valid_looks s (repeat 1 (List.length s)).
Proof.
  induction 1 as [|m s Hm _ IH]; [constructor|].
  cbn [List.length repeat]. constructor; [lia | exact IH].
Qed.

Lemma valid_looks_self (s : list Z) :
  Forall (fun m => 1 <= m) s -> valid_looks s s.
Proof.
  induction 1 as [|m s Hm _ IH]; constructor; [lia | exact IH].
Qed.

Lemma advisories_ones (s : list Z) : advisories (repeat 1 (List.length s)) s = [].
Proof.
  unfold advisories.
  assert (E1 : existsb Util.iseven (repeat 1 (List.length s)) = false).
  { induction s as [|m s IH]; [reflexivity|]. cbn [List.length repeat existsb].
    rewrite IH. reflexivity. }
  assert (E2 : existsb (fun p => negb (fst p mod snd p =? 0))
                       (combine s (repeat 1 (List.length s))) = false).
  { clear E1. induction s as [|m s IH]; [reflexivity|].
    cbn [List.length repeat combine existsb].
    rewrite IH. cbn [fst snd]. rewrite Z.mod_1_r. reflexivity. }
  now rewrite E1, E2.
Qed.

(** The warning about excluded samples is accurate. *)
Lemma remainder_iff_cropped (s nlooks : list Z) :
  valid_looks s nlooks ->
  existsb (fun p => negb (fst p mod snd p =? 0)) (combine s nlooks) = true
  <-> map2 Z.mul (map2 Z.div s nlooks) nlooks <> s.
Proof.
  induction 1 as [|m n s nlooks H _ IH]; [cbn; split; [discriminate|congruence]|].
  cbn [combine existsb fst snd]. rewrite !map2_cons, orb_true_iff, IH.
  pose proof (Z.div_mod m n ltac:(lia)) as E.
  rewrite negb_true_iff, Z.eqb_neq. split.
  - intros [Hm|Hs] Heq; injection Heq as E0 Es; [lia | contradiction].
  - intros Hne. destruct (Z.eq_dec (m mod n) 0) as [Hz|Hnz]; [right | now left].
    intros Es. apply Hne. f_equal; [lia | exact Es].
Qed.

Section Particular.

Context {A : Type} {DA : Dtype A}.

(** [multilook] warns about excluded samples exactly when cropping removes
    something, and on every axis it keeps a prefix that falls short of the
    input by less than one window. *)
Theorem multilook_remainder_accurate (arr : ndarray A) (spec : pyobj)
        (nlooks : list Z) (out : ndarray A) :
  normalize_nlooks_tuple spec (ndim arr) = Ok nlooks ->
  fst (multilook arr spec []) = Ok out ->
  (In remainder_warning (snd (multilook arr spec []))
   <-> map2 Z.mul (shape out) nlooks <> shape arr)
  /\ (forall i m n o,
        nth_error (shape arr) i = Some m -> nth_error nlooks i = Some n ->
        nth_error (shape out) i = Some o ->
        o * n <= m < (o + 1) * n).
Proof.
  intros Hn Hout. apply multilook_ok_inv in Hout as (nl & Hn' & Hv & -> & Hsnd).
  rewrite Hn in Hn'. injection Hn' as <-.
  rewrite Hsnd. cbn [app block_means shape]. split.
  - rewrite in_remainder_advisories. now apply remainder_iff_cropped.
  - intros i m n o Hm Hnn Ho.
    rewrite (nth_error_map2 _ _ _ Z.div _ _ i m n Hm Hnn) in Ho. injection Ho as <-.
    assert (1 <= n).
    { clear - Hv Hm Hnn. revert i Hm Hnn.
      induction Hv as [|m' n' s nl H _ IH]; intros [|i] Hm Hnn; try discriminate.
      - cbn in Hm, Hnn. injection Hm as ->. injection Hnn as ->. lia.
      - cbn in Hm, Hnn. now apply (IH i). }
    pose proof (Z.div_mod m n ltac:(lia)). pose proof (Z.mod_pos_bound m n ltac:(lia)).
    nia.
Qed.

Context {EA : ExactMean A}.

(** The block means of an array that repeats [c] over blocks of shape [k]. *)
Lemma block_means_tiled (c tiled : ndarray A) (k : list Z) :
  wf c ->
  Forall (fun n => 1 <= n) k ->
  List.length k = List.length (shape c) ->
  shape tiled = map2 Z.mul (shape c) k ->
  (forall idx, in_bounds (shape tiled) idx = true ->
               item tiled idx = item c (map2 Z.div idx k)) ->
  block_means tiled k = c.
Proof.
  intros Hwf Hk Hlen Hshape Htile.
  unfold block_means. rewrite Hshape, div_mul_shape by assumption.
  pose proof (map_item_indices c Hwf) as Hdata.
  destruct c as [s d]. cbn [shape data] in *. f_equal.
  etransitivity; [|exact Hdata]. apply map_ext_in.
  intros J HJ. apply in_indices in HJ.
  assert (HJlen : List.length J = List.length k).
  { rewrite (in_bounds_length _ _ HJ). lia. }
  unfold block.
  rewrite map_ext_in with (g := fun _ => item {| shape := s; data := d |} J).
  - rewrite map_const. apply mean_repeat.
    rewrite length_indices.
    + assert (0 < prod k); [|lia]. apply prod_positive.
      revert Hk. apply Forall_impl. intros; lia.
    + revert Hk. apply Forall_impl. intros; lia.
  - intros K HK. apply in_indices in HK.
    rewrite Htile.
    + now rewrite div_block_index.
    + rewrite Hshape. now apply in_bounds_block.
Qed.

(** With a window of one sample on every axis, [multilook] returns the
    array itself and warns about nothing. *)
Theorem multilook_ones_identity (arr : ndarray A) (w : list warning) :
  wf arr ->
  Forall (fun m => 1 <= m) (shape arr) ->
  multilook arr (PyInt 1) w = (Ok arr, w).
Proof.
  intros Hwf Hs.
  set (ones := repeat 1 (List.length (shape arr))).
  assert (Hn : normalize_nlooks_tuple (PyInt 1) (ndim arr) = Ok ones).
  { rewrite (normalize_scalar (PyInt 1) 1 _ eq_refl). unfold ndim, len.
    now rewrite Nat2Z.id. }
  rewrite (multilook_valid arr (PyInt 1) ones w Hn (valid_looks_ones _ Hs)).
  unfold ones. rewrite advisories_ones, app_nil_r. do 2 f_equal.
  apply block_means_tiled.
  - exact Hwf.
  - apply Forall_forall. intros n Hin. apply repeat_spec in Hin. lia.
  - apply repeat_length.
  - now rewrite map2_mul_ones.
  - intros idx Hidx. f_equal.
    rewrite <- (in_bounds_length _ _ Hidx). symmetry. apply map2_div_ones.
Qed.

(** An array that holds the same value everywhere is mapped to the array of
    the output shape that holds this value everywhere: zeros give zeros. *)
Theorem multilook_constant (arr : ndarray A) (spec : pyobj) (w : list warning)
        (v : A) (out : ndarray A) :
  (forall idx, in_bounds (shape arr) idx = true -> item arr idx = v) ->
  fst (multilook arr spec w) = Ok out ->
  out = full (shape out) v.
Proof.
  intros Hconst Hout. apply multilook_ok_inv in Hout as (nlooks & Hn & Hv & -> & _).
  pose proof (valid_looks_length _ _ Hv) as Hlen.
  pose proof (valid_looks_positive _ _ Hv) as Hpos.
  pose proof (valid_looks_out_positive _ _ Hv) as Hopos.
  unfold full. cbn [block_means shape]. unfold block_means. f_equal.
  rewrite <- length_indices by now apply Forall_positive_nonneg.
  rewrite <- map_const. apply map_ext_in. intros J HJ. apply in_indices in HJ.
  unfold block. rewrite map_ext_in with (g := fun _ => v).
  - rewrite map_const. apply mean_repeat.
    rewrite length_indices by now apply Forall_positive_nonneg.
    pose proof (prod_positive _ Hpos). lia.
  - intros K HK. apply in_indices in HK. apply Hconst.
    apply (in_bounds_prefix _ _ _ (valid_looks_crop _ _ Hv)).
    apply in_bounds_block; [|assumption..].
    rewrite length_map2; lia.
Qed.

End Particular.

Section WholeArray.

Context {A : Type} {DA : Dtype A}.

(** With the window equal to the array's shape, the result has extent one on
    every axis and its only element is the mean of all the elements. *)
Theorem multilook_full_window (arr : ndarray A) (w : list warning) :
  wf arr ->
  Forall (fun m => 1 <= m) (shape arr) ->
  fst (multilook arr (py_tuple (shape arr)) w)
  = Ok {| shape := repeat 1 (List.length (shape arr));
          data := [mean_of (data arr)] |}.
Proof.
  intros Hwf Hs.
  rewrite (multilook_valid arr (py_tuple (shape arr)) (shape arr) w
             (normalize_tuple _ _ eq_refl) (valid_looks_self _ Hs)).
  cbn [fst]. f_equal. unfold block_means.
  rewrite map2_div_self by assumption. rewrite indices_ones. cbn [map]. do 2 f_equal.
  unfold mean_of, block. rewrite len_map.
  replace (len (data arr)) with (len (indices (shape arr)))
    by (destruct Hwf as [Hnn Hl]; rewrite Hl; now apply len_indices).
  f_equal. f_equal. etransitivity; [|exact (map_item_indices arr Hwf)].
  apply map_ext_in. intros K HK. apply in_indices in HK.
  now rewrite block_index_origin by now apply in_bounds_length.
Qed.

End WholeArray.

(** ** Two rounds of multilooking *)

Lemma NoDup_flat_map (T U : Type) (f : T -> list U) (l : list T) :
  NoDup l ->
  (forall x, In x l -> NoDup (f x)) ->
  (forall x y z, In x l -> In y l -> In z (f x) -> In z (f y) -> x = y) ->
  NoDup (flat_map f l).
Proof.
  induction 1 as [|x l Hx Hl IH]; intros Hf Hdisj; [constructor|].
  cbn [flat_map]. apply NoDup_app.
  - apply Hf. now left.
  - apply IH.
    + intros y Hy. apply Hf. now right.
    + intros y y' z Hy Hy'. apply Hdisj; now right.
  - intros z Hz Hin. apply in_flat_map in Hin as (y & Hy & Hzy).
    apply Hx. rewrite (Hdisj x y z); auto; [now left | now right].
Qed.

Lemma NoDup_indices (s : list Z) : NoDup (indices s).
Proof.
  induction s as [|m s IH]; [repeat constructor; intros []|].
  cbn [indices]. apply NoDup_flat_map.
  - apply NoDup_range.
  - intros i _. apply Injective_map_NoDup; [|exact IH]. intros x y E. now injection E.
  - intros i j z _ _ Hi Hj.
    apply in_map_iff in Hi as (x & <- & _). apply in_map_iff in Hj as (y & E & _).
    now injection E.
Qed.

Lemma map2_mul_comm (a b : list Z) : map2 Z.mul a b = map2 Z.mul b a.
Proof.
  revert b. induction a as [|x a IH]; intros [|y b]; try reflexivity.
  rewrite !map2_cons, IH. f_equal. lia.
Qed.

Lemma prod_map2_mul (a b : list Z) :
  List.length a = List.length b -> prod (map2 Z.mul a b) = prod a * prod b.
Proof.
  revert b. induction a as [|x a IH]; intros [|y b] E; try discriminate;
    [reflexivity|].
  rewrite map2_cons, !prod_cons, IH by (cbn in E; lia). ring.
Qed.

Lemma Forall_positive_map2_mul (a b : list Z) :
  Forall (fun n => 0 < n) a -> Forall (fun n => 0 < n) b ->
  Forall (fun n => 0 < n) (map2 Z.mul a b).
Proof.
  intros Ha. revert b. induction Ha as [|x a Hx _ IH]; intros b Hb; [constructor|].
  destruct Hb as [|y b Hy Hb]; [constructor|].
  rewrite map2_cons. constructor; [nia | now apply IH].
Qed.

Lemma block_index_assoc (a b J K' K : list Z) :
  List.length b = List.length a ->
  List.length J = List.length a ->
  List.length K' = List.length a ->
  List.length K = List.length a ->
  block_index a (block_index b J K') K
  = block_index (map2 Z.mul a b) J (block_index a K' K).
Proof.
  revert b J K' K.
  induction a as [|x a IH]; intros [|y b] [|j J] [|k' K'] [|k K] Hb HJ HK' HK;
    try discriminate; [reflexivity|].
  rewrite map2_cons, !block_index_cons, IH by (cbn in *; lia). f_equal. ring.
Qed.

Lemma nested_offsets_Permutation (a b : list Z) :
  Forall (fun n => 0 < n) a -> Forall (fun n => 0 < n) b ->
  List.length b = List.length a ->
  Permutation (nested_offsets a b) (indices (map2 Z.mul a b)).
Proof.
  intros Ha Hb Hlen. unfold nested_offsets. apply NoDup_Permutation_bis.
  - apply NoDup_flat_map.
    + apply NoDup_indices.
    + intros K' HK'. apply Injective_map_NoDup_in; [|apply NoDup_indices].
      intros K1 K2 H1 H2 E. apply in_indices in H1, H2, HK'.
      apply in_bounds_length in HK'.
      now destruct (block_index_inj a K' K' K1 K2) as [_ ->]; try lia.
    + intros K1' K2' z H1 H2 Hz1 Hz2.
      apply in_map_iff in Hz1 as (K1 & <- & HK1).
      apply in_map_iff in Hz2 as (K2 & E & HK2).
      apply in_indices in H1, H2, HK1, HK2.
      apply in_bounds_length in H1, H2.
      now destruct (block_index_inj a K2' K1' K2 K1) as [-> _]; try lia.
  - rewrite length_flat_map_uniform with (P := Z.to_nat (prod a)).
    + rewrite (length_indices _ (Forall_positive_nonneg _ (Forall_positive_map2_mul _ _ Ha Hb))).
      rewrite (length_indices _ (Forall_positive_nonneg _ Hb)).
      rewrite prod_map2_mul by lia.
      pose proof (prod_positive _ Ha). pose proof (prod_positive _ Hb). nia.
    + intros K'. rewrite length_map. apply length_indices.
      now apply Forall_positive_nonneg.
  - intros z Hz. apply in_flat_map in Hz as (K' & HK' & Hz).
    apply in_map_iff in Hz as (K & <- & HK).
    apply in_indices in HK', HK. apply in_indices.
    rewrite map2_mul_comm. apply in_bounds_block; [lia | assumption..].
Qed.

Section Composition.

Context {A : Type} {DA : Dtype A} {LA : LinearMean A}.

Lemma sum_app (l1 l2 : list A) : sum (l1 ++ l2) = add (sum l1) (sum l2).
Proof.
  induction l1 as [|x l1 IH]; unfold sum in *; cbn [app fold_right].
  - now rewrite add_zero.
  - now rewrite IH, add_assoc.
Qed.

Lemma sum_Permutation (l1 l2 : list A) : Permutation l1 l2 -> sum l1 = sum l2.
Proof.
  induction 1 as [|x l1 l2 _ IH|x y l|l1 l2 l3 _ IH1 _ IH2]; unfold sum in *;
    cbn [fold_right].
  - reflexivity.
  - now rewrite IH.
  - now rewrite !add_assoc, (add_comm y x).
  - now rewrite IH1.
Qed.

(** The sum of the means of equally long lists is the mean-scaled sum of
    their concatenation. *)
Lemma sum_map_divn (T : Type) (L : T -> list A) (p : Z) (l : list T) :
  sum (map (fun x => divn (sum (L x)) p) l) = divn (sum (flat_map L l)) p.
Proof.
  induction l as [|x l IH].
  - cbn. unfold sum. cbn. now rewrite divn_zero.
  - cbn [map flat_map]. rewrite sum_app, divn_add, <- IH. reflexivity.
Qed.

(** Multilooking by [a] and then by [b] is multilooking by [a * b]. *)
Lemma block_means_compose (arr : ndarray A) (a b : list Z) :
  valid_looks (shape arr) a ->
  valid_looks (map2 Z.div (shape arr) a) b ->
  block_means (block_means arr a) b = block_means arr (map2 Z.mul a b).
Proof.
  intros Hva Hvb.
  pose proof (valid_looks_length _ _ Hva) as Hla.
  pose proof (valid_looks_length _ _ Hvb) as Hlb.
  rewrite length_map2 in Hlb by lia.
  pose proof (valid_looks_positive _ _ Hva) as Hpa.
  pose proof (valid_looks_positive _ _ Hvb) as Hpb.
  assert (Hshape : map2 Z.div (map2 Z.div (shape arr) a) b
                   = map2 Z.div (shape arr) (map2 Z.mul a b)).
  { clear Hla Hlb Hpa Hpb. revert b Hvb.
    induction Hva as [|m n s a H _ IH]; intros b Hvb.
    - inversion Hvb. reflexivity.
    - rewrite map2_cons in Hvb. inversion Hvb as [|m' n' s' b' H' Hvb']; subst.
      rewrite !map2_cons, IH by assumption. f_equal. apply Z.div_div; lia. }
  set (mid := block_means arr a).
  assert (Hms : shape mid = map2 Z.div (shape arr) a) by reflexivity.
  unfold block_means. rewrite Hms, Hshape. f_equal. subst mid.
  apply map_ext_in. intros J HJ. apply in_indices in HJ.
  assert (HJlen : List.length J = List.length a).
  { rewrite (in_bounds_length _ _ HJ).
    assert (List.length (map2 Z.mul a b) = List.length a) by (apply length_map2; lia).
    rewrite length_map2; lia. }
  (* the elements of the intermediate array that the second round reads *)
  assert (Hmid : forall K', In K' (indices b) ->
            item (block_means arr a) (block_index b J K')
            = divn (sum (map (fun K => item arr (block_index a (block_index b J K') K))
                             (indices a)))
                   (prod a)).
  { intros K' HK'. apply in_indices in HK'.
    unfold item at 1. cbn [block_means shape data].
    rewrite (nth_map_indices _ (fun I => mean_of (block arr a I))).
    - unfold mean_of. rewrite length_block by assumption. reflexivity.
    - apply (in_bounds_prefix _ _ _ (valid_looks_crop _ _ Hvb)).
      rewrite <- Hshape in HJ.
      apply in_bounds_block;
        [rewrite <- (in_bounds_length _ _ HJ); lia | assumption..]. }
  unfold mean_of at 1 2. rewrite !length_block.
  2: now apply Forall_positive_map2_mul.
  2: exact Hpb.
  unfold block at 1. rewrite (map_ext_in _ _ _ Hmid).
  rewrite (sum_map_divn _ (fun K' => map (fun K => item arr (block_index a (block_index b J K') K))
                                         (indices a))).
  rewrite divn_divn by (apply prod_positive; assumption).
  rewrite prod_map2_mul by lia. f_equal.
  unfold block.
  rewrite <- (sum_Permutation _ _
                (Permutation_map (fun I => item arr (block_index (map2 Z.mul a b) J I))
                                 (nested_offsets_Permutation a b Hpa Hpb
                                    (eq_trans Hlb (eq_sym Hla))))).
  f_equal. unfold nested_offsets. rewrite !flat_map_concat_map, concat_map, map_map.
  f_equal. apply map_ext_in. intros K' HK'. rewrite map_map.
  apply map_ext_in. intros K HK. f_equal.
  apply in_indices, in_bounds_length in HK', HK.
  apply block_index_assoc; lia.
Qed.

End Composition.

Lemma real_mul (p q : Z) : real (p * q) = (real p * real q)%Qc.
Proof.
  unfold real. apply Qc_is_canon. unfold Qcmult. cbn [this Q2Qc].
  rewrite !Qred_correct, inject_Z_mult. reflexivity.
Qed.

#[export] Instance Qc_LinearMean : LinearMean Qc.
Proof.
  split; cbn [add zero divn Qc_Dtype]; intros.
  - ring.
  - ring.
  - ring.
  - unfold Qcdiv. ring.
  - unfold Qcdiv. ring.
  - fold (real p) (real q) (real (p * q)). rewrite real_mul.
    field. split; apply real_nonzero; lia.
Qed.

#[export] Instance complex_LinearMean : LinearMean (Qc * Qc).
Proof.
  split; cbn [add zero divn complex_Dtype fst snd]; intros.
  - f_equal; ring.
  - f_equal; ring.
  - destruct x. cbn [fst snd]. f_equal; ring.
  - unfold Qcdiv. f_equal; ring.
  - unfold Qcdiv. f_equal; ring.
  - fold (real p) (real q) (real (p * q)). rewrite real_mul.
    f_equal; field; split; apply real_nonzero; lia.
Qed.

Lemma valid_looks_compose (s a b : list Z) :
  valid_looks s a -> valid_looks (map2 Z.div s a) b ->
  valid_looks s (map2 Z.mul a b).
Proof.
  intros Ha. revert b. induction Ha as [|m n s a H _ IH]; intros b Hb.
  - inversion Hb. constructor.
  - rewrite map2_cons in Hb. inversion Hb as [|m' n' s' b' H' Hb']; subst.
    rewrite map2_cons. constructor; [|now apply IH].
    pose proof (Z.mul_div_le m n ltac:(lia)). nia.
Qed.

Section TwoRounds.

Context {A : Type} {DA : Dtype A} {LA : LinearMean A}.

(** Multilooking twice is multilooking once with the products of the window
    sizes: when [multilook arr a] returns [mid] and [multilook mid b] returns
    [out], then [multilook arr (a * b)] returns [out] as well, in exact
    arithmetic. *)
Theorem multilook_twice (arr mid out : ndarray A) (spec_a spec_b spec_ab : pyobj)
        (a b : list Z) (w1 w2 w3 : list warning) :
  normalize_nlooks_tuple spec_a (ndim arr) = Ok a ->
  normalize_nlooks_tuple spec_b (ndim arr) = Ok b ->
  normalize_nlooks_tuple spec_ab (ndim arr) = Ok (map2 Z.mul a b) ->
  fst (multilook arr spec_a w1) = Ok mid ->
  fst (multilook mid spec_b w2) = Ok out ->
  fst (multilook arr spec_ab w3) = Ok out.
Proof.
  intros Ha Hb Hab Hmid Hout.
  apply multilook_ok_inv in Hmid as (a' & Ha' & Hva & -> & _).
  rewrite Ha in Ha'. injection Ha' as <-.
  apply multilook_ok_inv in Hout as (b' & Hb' & Hvb & -> & _).
  assert (Hnd : ndim (block_means arr a) = ndim arr).
  { unfold ndim, len, block_means. cbn [shape].
    rewrite length_map2; [reflexivity|].
    symmetry. now apply valid_looks_length. }
  rewrite Hnd, Hb in Hb'. injection Hb' as <-.
  cbn [block_means shape] in Hvb.
  rewrite (multilook_valid arr spec_ab _ w3 Hab (valid_looks_compose _ _ _ Hva Hvb)).
  cbn [fst]. f_equal. symmetry. now apply block_means_compose.
Qed.

End TwoRounds.

(** ** The input of the tests *)

Lemma update_nth_mul (s kk : list Z) (n : Z) (t : nat) :
  map2 Z.mul s (update_nth (fun x => x * n) t kk)
  = update_nth (fun m => m * n) t (map2 Z.mul s kk).
Proof.
  revert kk t. induction s as [|m s IH]; intros [|x kk] [|t]; try reflexivity.
  - cbn [update_nth]. rewrite !map2_cons. cbn [update_nth]. f_equal. ring.
  - cbn [update_nth]. rewrite !map2_cons. cbn [update_nth]. f_equal. apply IH.
Qed.

Lemma in_bounds_update_div (s idx : list Z) (n : Z) (t : nat) :
  0 < n ->
  in_bounds (update_nth (fun m => m * n) t s) idx = true ->
  in_bounds s (update_nth (fun i => i / n) t idx) = true.
Proof.
  intros Hn. revert idx t.
  induction s as [|m s IH]; intros [|i idx] [|t] H; try discriminate; try exact H.
  - cbn [update_nth] in *. apply in_bounds_cons in H as [Hi H].
    apply in_bounds_cons. split; [|exact H]. split.
    + apply Z.div_pos; lia.
    + apply Z.div_lt_upper_bound; lia.
  - cbn [update_nth] in *. apply in_bounds_cons in H as [Hi H].
    apply in_bounds_cons. split; [exact Hi | now apply IH].
Qed.

Lemma map2_div_update (idx kk : list Z) (n : Z) (t : nat) :
  0 < n -> Forall (fun x => 0 < x) kk ->
  map2 Z.div (update_nth (fun i => i / n) t idx) kk
  = map2 Z.div idx (update_nth (fun x => x * n) t kk).
Proof.
  intros Hn Hkk. revert idx t.
  induction Hkk as [|x kk Hx _ IH]; intros [|i idx] [|t]; try reflexivity.
  - cbn [update_nth]. rewrite !map2_cons. f_equal.
    rewrite Z.div_div by lia. f_equal. ring.
  - cbn [update_nth]. rewrite !map2_cons. f_equal. apply IH.
Qed.

Lemma update_nth_app (T : Type) (f : T -> T) (l1 : list T) (x : T) (l2 : list T) :
  update_nth f (List.length l1) (l1 ++ x :: l2) = l1 ++ f x :: l2.
Proof.
  induction l1 as [|y l1 IH]; [reflexivity|].
  cbn [List.length app update_nth]. now rewrite IH.
Qed.

Section TestInput.

Context {A : Type} {DA : Dtype A}.

Lemma repeats_of_item (c b : ndarray A) (kk idx : list Z) :
  repeats_of c b kk -> in_bounds (shape b) idx = true ->
  item b idx = item c (map2 Z.div idx kk).
Proof.
  intros [_ Hd] H. unfold item at 1. rewrite Hd.
  now apply (nth_map_indices _ (fun i => item c (map2 Z.div i kk))).
Qed.

(** One pass of the loop. *)
Lemma repeat_axis_step (c b : ndarray A) (kk : list Z) (n : Z) (t : nat) :
  1 <= n ->
  Forall (fun x => 0 < x) kk ->
  (t < List.length (shape b))%nat ->
  repeats_of c b kk ->
  exists b', repeat_axis b n t = Ok b'
             /\ repeats_of c b' (update_nth (fun x => x * n) t kk).
Proof.
  intros Hn Hkk Ht Hb. unfold repeat_axis.
  replace (List.length (shape b) <=? t)%nat with false
    by (symmetry; apply Nat.leb_gt; exact Ht).
  replace (n <? 0) with false by (symmetry; apply Z.ltb_ge; lia).
  eexists. split; [reflexivity|]. split; cbn [shape data].
  - rewrite update_nth_mul. f_equal. apply Hb.
  - apply map_ext_in. intros idx Hidx. apply in_indices in Hidx.
    rewrite (repeats_of_item c b kk) by (exact Hb || (apply in_bounds_update_div; [lia|exact Hidx])).
    f_equal. apply map2_div_update; [lia | exact Hkk].
Qed.

Lemma repeat_each_from (c : ndarray A) (rest : list Z) :
  Forall (fun n => 1 <= n) rest ->
  forall (done : list Z) (b : ndarray A),
    Forall (fun x => 0 < x) done ->
    List.length (shape c) = (List.length done + List.length rest)%nat ->
    repeats_of c b (done ++ repeat 1 (List.length rest)) ->
    exists r, repeat_each b (List.length done) rest = Ok r
              /\ repeats_of c r (done ++ rest).
Proof.
  induction 1 as [|n rest Hn Hrest IH]; intros done b Hdone Hlen Hb.
  - exists b. split; [reflexivity|]. exact Hb.
  - cbn [repeat_each].
    assert (Hkk : Forall (fun x => 0 < x) (done ++ repeat 1 (List.length (n :: rest)))).
    { apply Forall_app. split; [exact Hdone|].
      apply Forall_forall. intros x Hx. apply repeat_spec in Hx. lia. }
    destruct (repeat_axis_step c b _ n (List.length done) Hn Hkk) as (b' & Hstep & Hb').
    + destruct Hb as [Hs _]. rewrite Hs, length_map2.
      * cbn [List.length] in Hlen. lia.
      * rewrite length_app, repeat_length. exact Hlen.
    + exact Hb.
    + rewrite Hstep. cbn [List.length repeat] in Hb'. rewrite update_nth_app in Hb'.
      replace (1 * n) with n in Hb' by lia.
      destruct (IH (done ++ [n]) b') as (r & Hr & Hrr).
      * apply Forall_app. split; [exact Hdone | repeat constructor; lia].
      * rewrite length_app. cbn [List.length] in *. lia.
      * now rewrite <- app_assoc.
      * exists r. rewrite length_app in Hr. cbn [List.length] in Hr.
        replace (List.length done + 1)%nat with (S (List.length done)) in Hr by lia.
        split; [exact Hr|]. now rewrite <- app_assoc in Hrr.
Qed.

(** The loop of [test_multilook_2d] and [test_multilook_3d] builds, from the
    expected array [c] and positive window sizes [k], the array of shape
    [c.shape * k] that holds [c[idx // k]] at every index [idx]: each element
    of [c] spread over a block of shape [k]. *)
Theorem repeat_each_tile (c : ndarray A) (k : list Z) :
  wf c ->
  Forall (fun n => 1 <= n) k ->
  List.length k = List.length (shape c) ->
  repeat_each c 0 k = Ok (tile c k).
Proof.
  intros Hwf Hk Hlen.
  destruct (repeat_each_from c k Hk [] c) as (r & Hr & Hs & Hd).
  - constructor.
  - cbn. lia.
  - cbn [app]. rewrite Hlen. split.
    + now rewrite map2_mul_ones.
    + rewrite <- (map_item_indices c Hwf) at 1. apply map_ext_in.
      intros idx Hidx. apply in_indices, in_bounds_length in Hidx.
      f_equal. rewrite <- Hidx. symmetry. apply map2_div_ones.
  - cbn [List.length app] in Hr, Hs, Hd. rewrite Hr. f_equal.
    destruct r as [s d]. cbn [shape data] in *. subst s d. reflexivity.
Qed.

End TestInput.

(** * The further properties on sample inputs *)

Lemma item_zeros {A : Type} {DA : Dtype A} (s idx : list Z) :
  item (zeros s : ndarray A) idx = zero.
Proof. unfold item, zeros. cbn [shape data]. apply nth_repeat. Qed.

Lemma interleave_injective_witness :
  Util.interleave [3; 4] [7; 5] = Ok [3; 7; 4; 5]
  /\ forall t1 t2 : list Z,
       Util.interleave t1 t2 = Ok [3; 7; 4; 5] -> [3; 4] = t1 /\ [7; 5] = t2.
Proof.
  split; [reflexivity|]. intros t1 t2 H.
  exact (interleave_injective Z [3; 4] [7; 5] t1 t2 [3; 7; 4; 5] eq_refl H).
Defined.

Lemma ceil_divide_floor_witness :
  Util.ceil_divide (-7) 2 = -7 / 2 + 1 /\ Util.ceil_divide (-7) 2 = - (7 / 2).
Proof.
  apply (ceil_divide_floor (-7) 2); unfold Util.int64; lia.
Defined.

Lemma normalize_nlooks_tuple_bad_element_witness :
  normalize_nlooks_tuple (PySeq [PyInt 3; PyNone; PyInt 5]) 2
  = Raise (TypeError "int() argument must be a string, a bytes-like object or a real number, not 'NoneType'").
Proof.
  apply (normalize_nlooks_tuple_bad_element [PyInt 3] [PyInt 5] [3] PyNone).
  - repeat constructor.
  - reflexivity.
Defined.

Lemma normalize_nlooks_tuple_length_witness :
  normalize_nlooks_tuple (PyInt 3) (-2) = Ok []
  /\ len (@nil Z) = Z.max 0 (-2).
Proof.
  split; [reflexivity|].
  exact (proj1 (normalize_nlooks_tuple_length (PyInt 3) (-2) [] eq_refl)).
Defined.

Lemma multilook_normalized_witness :
  normalize_nlooks_tuple (PyFloat (5 # 2)) (ndim sample_2d) = Ok [2; 2]
  /\ multilook sample_2d (PyFloat (5 # 2)) [] = multilook sample_2d (py_tuple [2; 2]) [].
Proof.
  split; [reflexivity|].
  exact (proj2 (multilook_normalized sample_2d (PyFloat (5 # 2)) [2; 2] [] eq_refl)).
Defined.

Lemma validate_nlooks_length_blind_witness :
  fst (validate_nlooks [3; 0] (zeros [15] : ndarray Qc) [])
  = fst (validate_nlooks [3] (zeros [15] : ndarray Qc) [])
  /\ validate_nlooks [3] (zeros [15; 7] : ndarray Qc) []
     = validate_nlooks [3] (zeros [15] : ndarray Qc) [].
Proof.
  destruct (validate_nlooks_length_blind [3] [0] [7] (zeros [15] : ndarray Qc)
              (zeros [15; 7]) [] eq_refl eq_refl) as (H1 & _ & H2).
  split; [exact H1 | exact H2].
Defined.

Lemma multilook_raises_early_witness :
  fst (multilook (zeros [15; 15] : ndarray Qc) (py_tuple [1; 16]) [even_warning])
  = Raise (ValueError "number of looks should not exceed array shape")
  /\ snd (multilook (zeros [15; 15] : ndarray Qc) (py_tuple [1; 16]) [even_warning])
     = [even_warning].
Proof.
  split; [reflexivity|].
  exact (proj1 (multilook_raises_early (zeros [15; 15] : ndarray Qc) (py_tuple [1; 16])
                  [even_warning] _ eq_refl)).
Defined.

Lemma multilook_result_wf_witness :
  fst (multilook sample_1d (PyInt 2) []) = Ok (block_means sample_1d [2])
  /\ wf (block_means sample_1d [2])
  /\ Forall (fun m => 1 <= m) (shape (block_means sample_1d [2])).
Proof.
  assert (H : fst (multilook sample_1d (PyInt 2) []) = Ok (block_means sample_1d [2]))
    by reflexivity.
  split; [exact H|].
  exact (multilook_result_wf sample_1d (PyInt 2) [] _ H).
Defined.

Lemma multilook_remainder_accurate_witness :
  fst (multilook sample_1d (PyInt 2) []) = Ok (block_means sample_1d [2])
  /\ (In remainder_warning (snd (multilook sample_1d (PyInt 2) []))
      <-> map2 Z.mul (shape (block_means sample_1d [2])) [2] <> [5]).
Proof.
  assert (H : fst (multilook sample_1d (PyInt 2) []) = Ok (block_means sample_1d [2]))
    by reflexivity.
  split; [exact H|].
  exact (proj1 (multilook_remainder_accurate sample_1d (PyInt 2) [2] _ eq_refl H)).
Defined.

Lemma multilook_ones_identity_witness :
  wf sample_2d /\ multilook sample_2d (PyInt 1) [] = (Ok sample_2d, []).
Proof.
  split; [exact sample_2d_wf|].
  apply (multilook_ones_identity sample_2d []); [exact sample_2d_wf|].
  repeat constructor; lia.
Defined.

Lemma multilook_constant_witness :
  fst (multilook (zeros [15; 16] : ndarray Qc) (py_tuple [3; 4]) [])
  = Ok (block_means (zeros [15; 16]) [3; 4])
  /\ block_means (zeros [15; 16] : ndarray Qc) [3; 4] = full [5; 4] zero.
Proof.
  assert (H : fst (multilook (zeros [15; 16] : ndarray Qc) (py_tuple [3; 4]) [])
              = Ok (block_means (zeros [15; 16]) [3; 4])) by reflexivity.
  split; [exact H|].
  exact (multilook_constant (zeros [15; 16] : ndarray Qc) (py_tuple [3; 4]) [] zero _
           (fun idx _ => item_zeros [15; 16] idx) H).
Defined.

Lemma multilook_full_window_witness :
  wf sample_2d
  /\ fst (multilook sample_2d (py_tuple [3; 4]) [])
     = Ok {| shape := [1; 1]; data := [mean_of (data sample_2d)] |}.
Proof.
  split; [exact sample_2d_wf|].
  apply (multilook_full_window sample_2d []); [exact sample_2d_wf|].
  repeat constructor; lia.
Defined.

Lemma multilook_twice_witness :
  fst (multilook sample_2d (py_tuple [1; 2]) []) = Ok (block_means sample_2d [1; 2])
  /\ fst (multilook (block_means sample_2d [1; 2]) (py_tuple [3; 2]) [])
     = Ok (block_means (block_means sample_2d [1; 2]) [3; 2])
  /\ fst (multilook sample_2d (py_tuple [3; 4]) [])
     = Ok (block_means (block_means sample_2d [1; 2]) [3; 2]).
Proof.
  assert (H1 : fst (multilook sample_2d (py_tuple [1; 2]) [])
               = Ok (block_means sample_2d [1; 2])) by reflexivity.
  assert (H2 : fst (multilook (block_means sample_2d [1; 2]) (py_tuple [3; 2]) [])
               = Ok (block_means (block_means sample_2d [1; 2]) [3; 2])) by reflexivity.
  split; [exact H1|]. split; [exact H2|].
  exact (multilook_twice sample_2d _ _ (py_tuple [1; 2]) (py_tuple [3; 2])
           (py_tuple [3; 4]) [1; 2] [3; 2] [] [] [] eq_refl eq_refl eq_refl H1 H2).
Defined.

Lemma repeat_each_tile_witness :
  wf sample_2d /\ repeat_each sample_2d 0 [7; 5] = Ok (tile sample_2d [7; 5]).
Proof.
  split; [exact sample_2d_wf|].
  apply (repeat_each_tile sample_2d [7; 5]); [exact sample_2d_wf| |reflexivity].
  repeat constructor; lia.
Defined.

(** * One-dimensional arrays *)

Lemma flat_map_singleton (T U : Type) (f : T -> U) (l : list T) :
  flat_map (fun x => [f x]) l = map f l.
Proof. induction l as [|x l IH]; [reflexivity|]. cbn. now rewrite IH. Qed.

Lemma indices_1d (m : Z) : indices [m] = map (fun i => [i]) (range m).
Proof. cbn [indices map]. apply flat_map_singleton. Qed.

Lemma map_nth_seq (T : Type) (l : list T) (d : T) (a n : nat) :
  (a + n <= List.length l)%nat ->
  map (fun i => nth (a + i) l d) (seq 0 n) = firstn n (skipn a l).
Proof.
  revert l n. induction a as [|a IH]; intros l n H.
  - cbn [Nat.add skipn]. revert l H. induction n as [|n IHn]; intros l H; [reflexivity|].
    destruct l as [|x l]; [cbn in H; lia|].
    cbn [seq map firstn nth]. f_equal.
    rewrite <- seq_shift, map_map. apply IHn. cbn in H. lia.
  - destruct l as [|x l]; [cbn in H; lia|].
    cbn [skipn]. rewrite <- IH by (cbn in H; lia). reflexivity.
Qed.

Section OneDimension.

Context {A : Type} {DA : Dtype A}.

(** The case the comment in [multilook] starts from: a 1-D array of length
    [m] with [k] looks is cut into [m // k] consecutive runs of [k] samples,
    each run is averaged, and the samples after the last full run are left
    out. *)
Theorem multilook_1d (arr : ndarray A) (m k : Z) (w : list warning) :
  shape arr = [m] ->
  len (data arr) = m ->
  1 <= k <= m ->
  fst (multilook arr (PyInt k) w)
  = Ok {| shape := [m / k];
          data := map (fun j => mean_of (firstn (Z.to_nat k)
                                                (skipn (Z.to_nat (j * k)) (data arr))))
                      (range (m / k)) |}.
Proof.
  intros Hs Hd Hk.
  assert (Hn : normalize_nlooks_tuple (PyInt k) (ndim arr) = Ok [k]).
  { unfold ndim. now rewrite Hs. }
  assert (Hv : valid_looks (shape arr) [k]).
  { rewrite Hs. repeat constructor; lia. }
  rewrite (multilook_valid arr (PyInt k) [k] w Hn Hv). cbn [fst]. f_equal.
  unfold block_means. rewrite Hs. cbn [map2 combine map fst snd]. f_equal.
  rewrite indices_1d, map_map. apply map_ext_in. intros j Hj. apply in_range in Hj.
  f_equal. unfold block. rewrite indices_1d, map_map. unfold range. rewrite map_map.
  pose proof (Z.mul_div_le m k ltac:(lia)) as Hle.
  rewrite <- (map_nth_seq _ (data arr) zero (Z.to_nat (j * k)) (Z.to_nat k)).
  - apply map_ext. intros i. unfold item. rewrite Hs.
    cbn [block_index map2 combine map fst snd ravel prod fold_right]. f_equal. nia.
  - unfold len in Hd. nia.
Qed.

End OneDimension.

Lemma multilook_1d_witness :
  fst (multilook sample_1d (PyInt 2) [])
  = Ok {| shape := [2];
          data := [mean_of [real 1; real 2]; mean_of [real 3; real 4]] |}.
Proof.
  apply (multilook_1d sample_1d 5 2 []); [reflexivity | reflexivity | lia].
Defined.
